(** * autoStattic: WordPress to Markdown importer

    A shallow embedding of [src/autoStattic.py] and the verification of
    its specification.

    Python values are modelled as follows.
    - [str] is a list of characters ([list ascii]); string literals denote
      such lists.  Characters are the code points 0..255.
    - A [dict] is an association list in insertion order with Python's
      assignment rule: assigning to a key that is present replaces the
      value in place, assigning to a new key appends it.
    - A decoded JSON document is a [json] value.  Numbers are integers, as
      are all the numbers of the WordPress schema that the program reads.
    - A call that may raise returns an [outcome]; the unbounded
      [while True] loop of the fetcher takes fuel and [Diverge]s when the
      fuel is spent.
    - The network is a function [http] from the requested URL to what
      [requests.get] gives: an exception, or a response with its status
      code and its body.  [html2text]'s [handle] is a function on [str];
      the state that the converter object of the program keeps between
      two calls is not modelled, and a statement about two conversions
      takes a converter for each.  Both are parameters of the
      development. *)

From Stdlib Require Import List Ascii ZArith Lia Bool.
From Stdlib Require String DecimalString.
Import ListNotations.

Set Implicit Arguments.

(** ** Strings *)

Definition str := list ascii.

(** String literals are read as lists of characters. *)
Inductive lit := LNil | LCons (a : ascii) (l : lit).

Fixpoint lit_of_bytes (l : list Byte.byte) : lit :=
  match l with
  | [] => LNil
  | b :: l' => LCons (ascii_of_byte b) (lit_of_bytes l')
  end.

Fixpoint bytes_of_lit (l : lit) : list Byte.byte :=
  match l with
  | LNil => []
  | LCons a l' => byte_of_ascii a :: bytes_of_lit l'
  end.

Declare Scope str_scope.
Delimit Scope str_scope with str.
#[warnings="-via-type-remapping,-via-type-mismatch"]
String Notation str lit_of_bytes bytes_of_lit
  (via lit mapping [[nil] => LNil, [cons] => LCons]) : str_scope.
Open Scope str_scope.
Open Scope list_scope.
Open Scope Z_scope.

(** The newline character, and the blank line ["\n\n"] that ends every
    rendered block. *)
Definition nl : ascii := ascii_of_nat 10.
Definition nlnl : str := [nl; nl].

Definition str_eqb (a b : str) : bool :=
  if list_eq_dec ascii_dec a b then true else false.

(** [str(n)] of a Python int, as an f-string prints it. *)
Definition str_of_Z (n : Z) : str :=
  String.list_ascii_of_string
    (DecimalString.NilZero.string_of_int (Z.to_int n)).

(** [str.isspace] on one character: the code points below 256 that Python
    counts as white space. *)
Definition is_space (c : ascii) : bool :=
  let n := nat_of_ascii c in
  ((9 <=? n) && (n <=? 13) || (28 <=? n) && (n <=? 32)
   || (n =? 133) || (n =? 160))%nat.

Fixpoint lstrip (s : str) : str :=
  match s with
  | c :: s' => if is_space c then lstrip s' else s
  | [] => []
  end.

Definition rstrip (s : str) : str := rev (lstrip (rev s)).

(** [s.strip()] *)
Definition strip (s : str) : str := rstrip (lstrip s).

(** ** Ordered dictionaries *)

Module Dict.
Section Dict.
Variables K V : Type.
Variable eqb : K -> K -> bool.

Definition t := list (K * V).

(** [d.get(k)]: [None] when the key is absent. *)
Fixpoint get (k : K) (d : t) : option V :=
  match d with
  | [] => None
  | (k', v) :: d' => if eqb k k' then Some v else get k d'
  end.

(** [k in d] *)
Definition mem (k : K) (d : t) : bool :=
  match get k d with Some _ => true | None => false end.

(** [d[k] = v]: a present key keeps its place (and the key object it
    was inserted with), a new key goes last. *)
Fixpoint set (k : K) (v : V) (d : t) : t :=
  match d with
  | [] => [(k, v)]
  | (k', v') :: d' =>
      if eqb k k' then (k', v) :: d' else (k', v') :: set k v d'
  end.

(** [d.update(other)] *)
Definition update (d other : t) : t :=
  fold_left (fun acc kv => set (fst kv) (snd kv) acc) other d.

Definition keys (d : t) : list K := map fst d.
End Dict.
End Dict.

(** ** JSON values *)

#[warnings="-register-all"]
Inductive json :=
| JNull
| JBool (b : bool)
| JNum (n : Z)
| JStr (s : str)
| JArr (l : list json)
| JObj (d : list (str * json)).

(** Dictionaries keyed by strings (JSON objects, the frontmatter). *)
Definition sget (k : str) (d : list (str * json)) : option json :=
  Dict.get str_eqb k d.
Definition sset (k : str) (v : json) (d : list (str * json)) :=
  Dict.set str_eqb k v d.

(** Truth value of a decoded JSON value ([if x:], [if not x:]). *)
Definition truthy (j : json) : bool :=
  match j with
  | JNull => false
  | JBool b => b
  | JNum n => negb (n =? 0)
  | JStr s => match s with [] => false | _ => true end
  | JArr l => match l with [] => false | _ => true end
  | JObj d => match d with [] => false | _ => true end
  end.

(** What iterating over a value yields ([for x in j], [list.extend(j)]):
    the elements of a list, the keys of a dict, the characters of a
    string; the other values are not iterable ([TypeError]). *)
Definition py_iter (j : json) : option (list json) :=
  match j with
  | JArr l => Some l
  | JObj d => Some (map (fun kv => JStr (fst kv)) d)
  | JStr s => Some (map (fun c => JStr [c]) s)
  | _ => None
  end.

(** Values that can be dictionary keys: lists and dicts are unhashable. *)
Definition hashable (j : json) : bool :=
  match j with
  | JArr _ | JObj _ => false
  | _ => true
  end.

(** Equality of dictionary keys: [True == 1] and [False == 0]. *)
Definition key_eqb (a b : json) : bool :=
  match a, b with
  | JNull, JNull => true
  | JBool x, JBool y => Bool.eqb x y
  | JBool x, JNum n | JNum n, JBool x => n =? (if x then 1 else 0)
  | JNum n, JNum m => n =? m
  | JStr s, JStr u => str_eqb s u
  | _, _ => false
  end.

(** [f"{k}"] of a hashable value. *)
Definition py_str (j : json) : str :=
  match j with
  | JNull => "None"
  | JBool true => "True"
  | JBool false => "False"
  | JNum n => str_of_Z n
  | JStr s => s
  | _ => ""
  end.

(** ** Exceptions and outcomes *)

Inductive exn :=
| HTTPError
| JSONDecodeError
| ConnectionError
| KeyError
| TypeError
| AttributeError.

Inductive outcome (A : Type) :=
| Ok (a : A)
| Raise (e : exn)
| Diverge.
Arguments Raise {A} e.
Arguments Diverge {A}.

Definition bind {A B} (m : outcome A) (f : A -> outcome B) : outcome B :=
  match m with
  | Ok a => f a
  | Raise e => Raise e
  | Diverge => Diverge
  end.

Notation "x <- m ;; k" := (bind m (fun x => k))
  (at level 61, m at next level, right associativity).

(** ** The network *)

(** A response as the program reads it: its status code, and what
    [json()] decodes ([None]: it raises [JSONDecodeError]). *)
Record response := {
  status_code : Z;
  json_body : option json
}.

(** Whether [raise_for_status()] raises [HTTPError]: it does for the
    client errors 400..499 and the server errors 500..599, and returns
    for every other status. *)
Definition raises_for_status (r : response) : bool :=
  (400 <=? status_code r) && (status_code r <? 600).

(** [requests.get(url)] either raises (no connection, time-out, ...) or
    returns a response. *)
Inductive get_result :=
| GetRaises (e : exn)
| Response (r : response).

(** A term of a taxonomy, [{'id': ..., 'name': ...}]. *)
Record term := { term_id : json; term_name : json }.

Definition term_table := list (json * term).
Definition taxonomy_table := list (str * term_table).

Section Fetch.
Variable http : str -> get_result.

(** The URL of one page of a collection endpoint. *)
Definition page_url (domain_url endpoint : str) (per_page page : Z) : str :=
  domain_url ++ "/wp-json/wp/v2/" ++ endpoint ++ "?per_page="
    ++ str_of_Z per_page ++ "&page=" ++ str_of_Z page ++ "&_embed".

(** The loop of [fetch_wordpress_data].  [data] is the list aggregated so
    far and [log] the URLs requested so far, oldest first.  The request
    is made outside the [try], so what [requests.get] raises leaves the
    function; every exception raised inside the [try] ends the loop. *)
Fixpoint fetch_loop (fuel : nat) (domain_url endpoint : str) (per_page page : Z)
    (data : list json) (log : list str) : outcome (list json) * list str :=
  match fuel with
  | O => (Diverge, log)
  | S fuel' =>
      let url := page_url domain_url endpoint per_page page in
      let log' := log ++ [url] in
      match http url with
      | GetRaises e => (Raise e, log')
      | Response r =>
          if raises_for_status r then (Ok data, log')
          else
            match json_body r with
            | None => (Ok data, log')
            | Some items =>
                if negb (truthy items) then (Ok data, log')
                else
                  match py_iter items with
                  | None => (Ok data, log')
                  | Some l =>
                      let data' := data ++ l in
                      if Z.of_nat (length l) <? per_page then (Ok data', log')
                      else fetch_loop fuel' domain_url endpoint per_page
                             (page + 1) data' log'
                  end
            end
      end
  end.

Definition fetch_wordpress_data (fuel : nat) (domain_url endpoint : str)
    (per_page : Z) : outcome (list json) * list str :=
  fetch_loop fuel domain_url endpoint per_page 1 [] [].

(** One entry of the comprehension of [fetch_terms_by_taxonomy]:
    [term['id']] and [term['name']] raise [KeyError] on a dict without
    the key and [TypeError] on a value that is not a dict; storing under
    an unhashable id raises [TypeError]. *)
Definition term_entry (t : json) : outcome (json * term) :=
  match t with
  | JObj d =>
      match sget "id" d with
      | None => Raise KeyError
      | Some i =>
          match sget "name" d with
          | None => Raise KeyError
          | Some n =>
              if hashable i then Ok (i, {| term_id := i; term_name := n |})
              else Raise TypeError
          end
      end
  | _ => Raise TypeError
  end.

Fixpoint build_terms (terms : list json) (acc : term_table) : outcome term_table :=
  match terms with
  | [] => Ok acc
  | t :: terms' =>
      e <- term_entry t ;;
      build_terms terms' (Dict.set key_eqb (fst e) (snd e) acc)
  end.

Definition fetch_terms_by_taxonomy (fuel : nat) (domain_url taxonomy : str)
    : outcome term_table :=
  terms <- fst (fetch_wordpress_data fuel domain_url taxonomy 100) ;;
  build_terms terms [].

(** The inner loop of [fetch_custom_taxonomies]: only [HTTPError] is
    caught there, and skips the taxonomy. *)
Fixpoint fetch_each_taxonomy (fuel : nat) (domain_url : str)
    (names : list str) (taxonomy_terms : taxonomy_table) : outcome taxonomy_table :=
  match names with
  | [] => Ok taxonomy_terms
  | taxonomy :: names' =>
      match fetch_terms_by_taxonomy fuel domain_url taxonomy with
      | Ok terms =>
          fetch_each_taxonomy fuel domain_url names'
            (Dict.set str_eqb taxonomy terms taxonomy_terms)
      | Raise HTTPError =>
          fetch_each_taxonomy fuel domain_url names' taxonomy_terms
      | Raise e => Raise e
      | Diverge => Diverge
      end
  end.

Definition is_builtin (k : str) : bool :=
  str_eqb k "category" || str_eqb k "post_tag".

(** [fetch_custom_taxonomies]: the listing request is outside the [try];
    whatever is raised inside it is logged and the function returns the
    empty table. *)
Definition fetch_custom_taxonomies (fuel : nat) (domain_url : str)
    : outcome taxonomy_table :=
  match http (domain_url ++ "/wp-json/wp/v2/taxonomies") with
  | GetRaises e => Raise e
  | Response r =>
      if raises_for_status r then Ok []
      else
        match json_body r with
        | None => Ok []
        | Some (JObj taxonomies) =>
            let custom_taxonomies :=
              Dict.update str_eqb []
                (filter (fun kv => negb (is_builtin (fst kv))) taxonomies) in
            match fetch_each_taxonomy fuel domain_url
                    (Dict.keys custom_taxonomies) [] with
            | Ok taxonomy_terms => Ok taxonomy_terms
            | Raise _ => Ok []
            | Diverge => Diverge
            end
        | Some _ => Ok []
        end
  end.
End Fetch.

(** ** Regular expressions

    The three patterns of the program are sequences of literal texts,
    single characters of a class and starred classes, greedy or lazy.
    [match_here] is the backtracking matcher of such a sequence at the
    start of a string, with [re]'s priorities: a greedy star tries the
    longest run first, a lazy star the shortest.  It returns the text
    each atom consumed and the rest of the string. *)

Inductive atom :=
| Lit (l : str)
| One (cls : ascii -> bool)
| Star (greedy : bool) (cls : ascii -> bool).

Definition regex := list atom.

Fixpoint strip_prefix (l s : str) : option str :=
  match l, s with
  | [], _ => Some s
  | a :: l', c :: s' => if Ascii.eqb a c then strip_prefix l' s' else None
  | _ :: _, [] => None
  end.

Definition push (x : str) (r : option (list str * str)) : option (list str * str) :=
  match r with
  | Some (caps, rest) => Some (x :: caps, rest)
  | None => None
  end.

Section Star.
Variable cls : ascii -> bool.
Variable k : str -> option (list str * str).

(** The star stops here and the rest of the pattern goes on. *)
Definition stop (s : str) : option (str * (list str * str)) :=
  match k s with
  | Some r => Some ([], r)
  | None => None
  end.

(** The star takes [c]. *)
Definition take (c : ascii) (r : option (str * (list str * str)))
    : option (str * (list str * str)) :=
  match r with
  | Some (x, r') => Some (c :: x, r')
  | None => None
  end.

Fixpoint star (greedy : bool) (s : str) : option (str * (list str * str)) :=
  match s with
  | c :: s' =>
      if cls c then
        if greedy then
          match take c (star greedy s') with
          | Some r => Some r
          | None => stop s
          end
        else
          match stop s with
          | Some r => Some r
          | None => take c (star greedy s')
          end
      else stop s
  | [] => stop s
  end.
End Star.

Fixpoint match_here (re : regex) : str -> option (list str * str) :=
  match re with
  | [] => fun s => Some ([], s)
  | Lit l :: re' => fun s =>
      match strip_prefix l s with
      | Some s' => push l (match_here re' s')
      | None => None
      end
  | One cls :: re' => fun s =>
      match s with
      | c :: s' => if cls c then push [c] (match_here re' s') else None
      | [] => None
      end
  | Star greedy cls :: re' => fun s =>
      match star cls (match_here re') greedy s with
      | Some (x, (caps, rest)) => Some (x :: caps, rest)
      | None => None
      end
  end.

(** [re.search]: the leftmost position at which the pattern matches; the
    text before the match, the atoms' texts and the text after it. *)
Fixpoint search (re : regex) (s : str) : option (str * list str * str) :=
  match match_here re s with
  | Some (caps, rest) => Some ([], caps, rest)
  | None =>
      match s with
      | [] => None
      | c :: s' =>
          match search re s' with
          | Some (pre, caps, rest) => Some (c :: pre, caps, rest)
          | None => None
          end
      end
  end.

(** [re.search(l, s)] for a literal [l], as a truth value. *)
Definition contains (l s : str) : bool :=
  match search [Lit l] s with
  | Some _ => true
  | None => false
  end.

(** [re.split] for a pattern that is one capture group and matches no
    empty text: the texts between the matches, with the matches
    themselves in between.  A match is at least one character long, so
    fuel [length s] is never spent. *)
Fixpoint split_from (fuel : nat) (re : regex) (s : str) : list str :=
  match search re s with
  | None => [s]
  | Some (pre, caps, rest) =>
      match fuel with
      | O => [s]
      | S fuel' => pre :: concat caps :: split_from fuel' re rest
      end
  end.

Definition re_split (re : regex) (s : str) : list str :=
  split_from (length s) re s.

(** [re.sub] for a pattern that matches no empty text; [repl] expands the
    replacement template from the atoms' texts. *)
Fixpoint sub_from (fuel : nat) (re : regex) (repl : list str -> str) (s : str) : str :=
  match search re s with
  | None => s
  | Some (pre, caps, rest) =>
      match fuel with
      | O => s
      | S fuel' => pre ++ repl caps ++ sub_from fuel' re repl rest
      end
  end.

Definition re_sub (re : regex) (repl : list str -> str) (s : str) : str :=
  sub_from (length s) re repl s.

(** The text of a group that spans [len] atoms from atom [from]. *)
Definition group (from len : nat) (caps : list str) : str :=
  concat (firstn len (skipn from caps)).

Definition not_gt (c : ascii) : bool := negb (Ascii.eqb c ">").
Definition not_nl (c : ascii) : bool := negb (Ascii.eqb c nl).
Definition any_char (c : ascii) : bool := true.

(** [(<div[^>]*wp-block[^>]*>.*?</div>)] under [re.DOTALL]. *)
Definition block_re : regex :=
  [Lit "<div"; Star true not_gt; Lit "wp-block"; Star true not_gt; Lit ">";
   Star false any_char; Lit "</div>"].

(** [!\[(.*?)\]\((https://example.com/wp-content/uploads/(.*?)\))]: the
    dot of [example.com] is the pattern's dot, any character but a
    newline.  Group 1 is atom 1, group 2 atoms 3 to 7, group 3 atom 6. *)
Definition media_re : regex :=
  [Lit "!["; Star false not_nl; Lit "]("; Lit "https://example"; One not_nl;
   Lit "com/wp-content/uploads/"; Star false not_nl; Lit ")"].

(** The template [!\[\1\](\3)]: a backslash before a bracket is not an
    escape of a replacement template and stays in the output. *)
Definition media_repl (caps : list str) : str :=
  "!\[" ++ group 1 1 caps ++ "\](" ++ group 6 1 caps ++ ")".

(** [process_media_links]; the second argument is not used. *)
Definition process_media_links (content media_base_url : str) : str :=
  re_sub media_re media_repl content.

(** ** Conversion of one item *)

(** [map_term_ids_to_names] *)
Definition unknown_name (term_id : json) : json :=
  JStr ("Unknown (ID: " ++ py_str term_id ++ ")").

Definition term_name_of (terms : term_table) (term_id : json) : outcome json :=
  if hashable term_id then
    Ok (match Dict.get key_eqb term_id terms with
        | Some t => term_name t
        | None => unknown_name term_id
        end)
  else Raise TypeError.

Fixpoint map_names (terms : term_table) (ids : list json) : outcome (list json) :=
  match ids with
  | [] => Ok []
  | term_id :: ids' =>
      n <- term_name_of terms term_id ;;
      ns <- map_names terms ids' ;;
      Ok (n :: ns)
  end.

Definition map_term_ids_to_names (ids : json) (terms : term_table)
    : outcome (list json) :=
  match py_iter ids with
  | Some l => map_names terms l
  | None => Raise TypeError
  end.

(** The frontmatter and the body written to the item's file, between and
    after the [---] lines; [yaml.dump] is called with [sort_keys=False]
    and writes the keys in the order of the mapping. *)
Record markdown_file := {
  frontmatter : list (str * json);
  body : str
}.

(** [save_as_markdown]: a title that is a dict is replaced by its
    [rendered] entry. *)
Definition save_as_markdown (fm : list (str * json)) (content : str) : markdown_file :=
  let title := match sget "title" fm with Some t => t | None => JStr "Untitled" end in
  let title :=
    match title with
    | JObj d => match sget "rendered" d with Some t => t | None => JStr "Untitled" end
    | _ => title
    end in
  {| frontmatter := sset "title" title fm; body := content |}.

(** The fields that the catch-all of [convert_post_to_md] leaves out. *)
Definition excluded_fields : list str :=
  ["content"; "excerpt"; "guid"; "_links"; "_embedded"; "acf"].

Definition is_excluded (k : str) : bool := existsb (str_eqb k) excluded_fields.

Section Convert.
(** [html_converter.handle] *)
Variable handle : str -> str.
(** The site URL, a global of the program. *)
Variable domain_url : str.

(** One turn of the loop over the blocks. *)
Definition render_block (use_markdown : bool) (block : str) : str :=
  if contains "wp-block" block then strip block ++ nlnl
  else if use_markdown then strip (handle block) ++ nlnl
  else strip block ++ nlnl.

Definition render_blocks (use_markdown : bool) (blocks : list str) : str :=
  fold_left (fun converted_content block =>
               converted_content ++ render_block use_markdown block)
            blocks "".

(** [converted_content] for the raw HTML of an item. *)
Definition convert_content (use_markdown : bool) (html_content : str) : str :=
  render_blocks use_markdown (re_split block_re html_content).

(** [post.get(field, {}).get('rendered', default)] *)
Definition get_rendered (field : str) (default : json) (post : list (str * json))
    : outcome json :=
  match sget field post with
  | None => Ok default
  | Some (JObj d) =>
      Ok (match sget "rendered" d with Some v => v | None => default end)
  | Some _ => Raise AttributeError
  end.

(** A value used where the program needs a string. *)
Definition expect_str (e : exn) (j : json) : outcome str :=
  match j with
  | JStr s => Ok s
  | _ => Raise e
  end.

Definition get_or (k : str) (default : json) (post : list (str * json)) : json :=
  match sget k post with Some v => v | None => default end.

(** The loop over the custom taxonomies. *)
Fixpoint add_taxonomies (post : list (str * json)) (custom_taxonomies : taxonomy_table)
    (fm : list (str * json)) : outcome (list (str * json)) :=
  match custom_taxonomies with
  | [] => Ok fm
  | (taxonomy, terms) :: rest =>
      if Dict.mem str_eqb taxonomy post then
        names <- map_term_ids_to_names (get_or taxonomy (JArr []) post) terms ;;
        add_taxonomies post rest (sset taxonomy (JArr names) fm)
      else add_taxonomies post rest fm
  end.

(** [convert_post_to_md].  The path of the file is built from the slug
    and plays no part below; of the slug only the failure of
    [slug.replace] on a value that is not a string is kept. *)
Definition convert_post_to_md (post : list (str * json))
    (authors : list (json * json)) (categories tags : term_table)
    (custom_taxonomies : taxonomy_table) (post_type : str) (use_markdown : bool)
    : outcome markdown_file :=
  _ <- match sget "slug" post with
       | Some slug => expect_str AttributeError slug
       | None => Ok ""
       end ;;
  html_content <- get_rendered "content" (JStr "") post ;;
  html_content <- expect_str TypeError html_content ;;
  let converted_content := convert_content use_markdown html_content in
  let content := process_media_links converted_content domain_url in
  let author_id := get_or "author" (JNum 0) post in
  author_name <- (if hashable author_id
                  then Ok (match Dict.get key_eqb author_id authors with
                           | Some n => n
                           | None => JStr "Unknown"
                           end)
                  else Raise TypeError) ;;
  title <- get_rendered "title" (JStr "Untitled") post ;;
  excerpt <- get_rendered "excerpt" (JStr "") post ;;
  excerpt <- expect_str AttributeError excerpt ;;
  let fm :=
    [("title", title);
     ("date", get_or "date" (JStr "") post);
     ("author", author_name);
     ("excerpt", JStr (strip (handle excerpt)));
     ("custom_url", get_or "slug" (JStr "") post);
     ("type", JStr post_type)] in
  names <- map_term_ids_to_names (get_or "categories" (JArr []) post) categories ;;
  let fm := sset "categories" (JArr names) fm in
  names <- map_term_ids_to_names (get_or "tags" (JArr []) post) tags ;;
  let fm := sset "tags" (JArr names) fm in
  let acf_data := get_or "acf" JNull post in
  let fm := if truthy acf_data then sset "acf" acf_data fm else fm in
  fm <- add_taxonomies post custom_taxonomies fm ;;
  let filtered_metadata :=
    Dict.update str_eqb []
      (filter (fun kv => negb (is_excluded (fst kv))) post) in
  let fm := Dict.update str_eqb fm filtered_metadata in
  Ok (save_as_markdown fm content).
End Convert.

(** ** The batch *)

(** One entry of the comprehension of [save_authors],
    [{author['id']: author['name'] for author in authors}]; it raises as
    the entry of a term does. *)
Definition author_entry (author : json) : outcome (json * json) :=
  match author with
  | JObj d =>
      match sget "id" d with
      | None => Raise KeyError
      | Some i =>
          match sget "name" d with
          | None => Raise KeyError
          | Some n => if hashable i then Ok (i, n) else Raise TypeError
          end
      end
  | _ => Raise TypeError
  end.

Fixpoint build_authors (authors : list json) (acc : list (json * json))
    : outcome (list (json * json)) :=
  match authors with
  | [] => Ok acc
  | author :: authors' =>
      e <- author_entry author ;;
      build_authors authors' (Dict.set key_eqb (fst e) (snd e) acc)
  end.

(** A fetched item handed to [convert_post_to_md]: [post.get] raises
    [AttributeError] on a value that is not a dict. *)
Definition convert_item (handle : str -> str) (domain_url : str) (item : json)
    (authors : list (json * json)) (categories tags : term_table)
    (custom_taxonomies : taxonomy_table) (post_type : str) (use_markdown : bool)
    : outcome markdown_file :=
  match item with
  | JObj post =>
      convert_post_to_md handle domain_url post authors categories tags
        custom_taxonomies post_type use_markdown
  | _ => Raise AttributeError
  end.

Section Batch.
Variable http : str -> get_result.
Variable handle : str -> str.
(** The global [domain_url] that [convert_post_to_md] reads. *)
Variable global_domain_url : str.

(** [save_authors]: the table from the ids of the users to their names.
    The file authors.yml that it writes is not modelled. *)
Definition save_authors (fuel : nat) (domain_url : str) : outcome (list (json * json)) :=
  authors <- fst (fetch_wordpress_data http fuel domain_url "users" 100) ;;
  build_authors authors [].

(** [save_categories_and_tags]: the two tables.  A [JSONDecodeError] that
    leaves the fetch of the tags gives the empty table; nothing is caught
    around the fetch of the categories.  The files categories.yml and
    tags.yml are not modelled. *)
Definition save_categories_and_tags (fuel : nat) (domain_url : str)
    : outcome (term_table * term_table) :=
  categories <- fetch_terms_by_taxonomy http fuel domain_url "categories" ;;
  tags <- match fetch_terms_by_taxonomy http fuel domain_url "tags" with
          | Raise JSONDecodeError => Ok []
          | o => o
          end ;;
  Ok (categories, tags).

(** One of the two loops of [save_posts_and_pages]; [written] is the list
    of the files written so far, oldest first.  Nothing is caught: the
    first item whose conversion raises ends the loop. *)
Fixpoint convert_each (items : list json) (authors : list (json * json))
    (categories tags : term_table) (custom_taxonomies : taxonomy_table)
    (post_type : str) (use_markdown : bool) (written : list markdown_file)
    : outcome unit * list markdown_file :=
  match items with
  | [] => (Ok tt, written)
  | item :: items' =>
      match convert_item handle global_domain_url item authors categories tags
              custom_taxonomies post_type use_markdown with
      | Ok f =>
          convert_each items' authors categories tags custom_taxonomies
            post_type use_markdown (written ++ [f])
      | Raise e => (Raise e, written)
      | Diverge => (Diverge, written)
      end
  end.

(** [save_posts_and_pages]: both collections are fetched, then the posts
    are converted, then the pages. *)
Definition save_posts_and_pages (fuel : nat) (domain_url : str)
    (authors : list (json * json)) (categories tags : term_table)
    (custom_taxonomies : taxonomy_table) (use_markdown : bool)
    : outcome unit * list markdown_file :=
  match fst (fetch_wordpress_data http fuel domain_url "posts" 100) with
  | Ok posts =>
      match fst (fetch_wordpress_data http fuel domain_url "pages" 100) with
      | Ok pages =>
          match convert_each posts authors categories tags custom_taxonomies
                  "post" use_markdown [] with
          | (Ok _, written) =>
              convert_each pages authors categories tags custom_taxonomies
                "page" use_markdown written
          | failed => failed
          end
      | Raise e => (Raise e, [])
      | Diverge => (Diverge, [])
      end
  | Raise e => (Raise e, [])
  | Diverge => (Diverge, [])
  end.
End Batch.

(** * Vocabulary of the specification *)

(** The order of the keys of a dictionary after an assignment. *)
Definition add_key (ks : list str) (k : str) : list str :=
  if existsb (str_eqb k) ks then ks else ks ++ [k].

(** ... and after a sequence of assignments. *)
Definition add_keys (ks new : list str) : list str := fold_left add_key new ks.

(** The name that an integer id resolves to: the name of its term, or the
    placeholder that embeds the id. *)
Definition resolved_name (terms : term_table) (i : Z) : json :=
  match Dict.get key_eqb (JNum i) terms with
  | Some t => term_name t
  | None => JStr ("Unknown (ID: " ++ str_of_Z i ++ ")")
  end.

(** A response with a success status and a body that decodes to [j]. *)
Definition ok_response (j : json) : get_result :=
  Response {| status_code := 200; json_body := Some j |}.

(** The URLs of [n] pages from page [first] on. *)
Definition page_urls (domain_url endpoint : str) (per_page first : Z) (n : nat)
    : list str :=
  map (fun i => page_url domain_url endpoint per_page (first + Z.of_nat i)) (seq 0 n).

(** Page [first + i] of the server is the [i]-th list of [pages], and
    each of these lists lets the loop go on: it is not empty and not
    shorter than the page size. *)
Definition serves_full_pages (http : str -> get_result) (domain_url endpoint : str)
    (per_page first : Z) (pages : list (list json)) : Prop :=
  forall i l, nth_error pages i = Some l ->
    http (page_url domain_url endpoint per_page (first + Z.of_nat i))
      = ok_response (JArr l)
    /\ l <> [] /\ per_page <= Z.of_nat (length l).

(** The keys that always come first. *)
Definition leading_keys : list str :=
  ["title"; "date"; "author"; "excerpt"; "custom_url"; "type"; "categories"; "tags"].

(** The key of the ACF bundle, when the item carries one that is not
    empty. *)
Definition acf_key (post : list (str * json)) : list str :=
  if truthy (get_or "acf" JNull post) then ["acf"] else [].

(** The custom taxonomies that are fields of the item, in the order of
    the taxonomy table. *)
Definition taxonomy_keys (post : list (str * json)) (custom_taxonomies : taxonomy_table)
    : list str :=
  filter (fun taxonomy => Dict.mem str_eqb taxonomy post) (Dict.keys custom_taxonomies).

(** The fields of the item that the catch-all keeps, in the order of the
    item. *)
Definition metadata_keys (post : list (str * json)) : list str :=
  filter (fun k => negb (is_excluded k)) (Dict.keys post).

(** The keys of the frontmatter of a converted item, in order. *)
Definition emitted_keys (o : outcome markdown_file) : option (list str) :=
  match o with
  | Ok f => Some (Dict.keys (frontmatter f))
  | _ => None
  end.

(** What an atom may consume. *)
Definition fits (a : atom) (x : str) : Prop :=
  match a with
  | Lit l => x = l
  | One cls => exists c, x = [c] /\ cls c = true
  | Star _ cls => forallb cls x = true
  end.

(** A structured block: a [div] whose opening tag holds the marker and
    whose first closing tag is at its end. *)
Definition is_block (b : str) : Prop :=
  exists attrs inner,
    b = "<div" ++ attrs ++ ">" ++ inner ++ "</div>"
    /\ forallb not_gt attrs = true
    /\ contains "wp-block" attrs = true
    /\ search [Lit "</div>"] (inner ++ "</div>") = Some (inner, ["</div>"], []).

(** A record of a collection with the integer id [i] and the name [n]. *)
Definition is_named_record (t : json) (i : Z) (n : json) : Prop :=
  exists d, t = JObj d /\ sget "id" d = Some (JNum i) /\ sget "name" d = Some n.

(** The entry of a term table, and of the table of the authors, for the
    id and the name of a record. *)
Definition term_of (p : Z * json) : json * term :=
  (JNum (fst p), {| term_id := JNum (fst p); term_name := snd p |}).

Definition author_of (p : Z * json) : json * json := (JNum (fst p), snd p).

(** The fetcher returns [items] for a collection, with the default page
    size. *)
Definition fetches (http : str -> get_result) (fuel : nat) (domain_url endpoint : str)
    (items : list json) : Prop :=
  fst (fetch_wordpress_data http fuel domain_url endpoint 100) = Ok items.

(** The shape of what splitting gives: a last segment that holds no
    block, or a segment that holds no block, a block that holds the
    marker, and more. *)
Inductive alternating : list str -> Prop :=
| alt_last (s : str) :
    search block_re s = None -> alternating [s]
| alt_block (pre b : str) (rest : list str) :
    search block_re pre = None -> contains "wp-block" b = true ->
    alternating rest -> alternating (pre :: b :: rest).

(** The characters of the alternative text and of the path of an image
    reference: no newline, and no bracket that would close the text, no
    parenthesis that would close the path. *)
Definition alt_char (ch : ascii) : bool := not_nl ch && negb (Ascii.eqb ch "]").
Definition path_char (ch : ascii) : bool := not_nl ch && negb (Ascii.eqb ch ")").
Definition not_bang (ch : ascii) : bool := negb (Ascii.eqb ch "!").

(** The title that an item is emitted with: the [rendered] entry of its
    title, Untitled when that or the title is missing. *)
Definition rendered_title (post : list (str * json)) : json :=
  match sget "title" post with
  | Some (JObj d) =>
      match sget "rendered" d with
      | Some t => t
      | None => JStr "Untitled"
      end
  | _ => JStr "Untitled"
  end.

(** Two frontmatters with the same keys in the same order and the same
    value under every key but excerpt. *)
Definition same_but_excerpt (d1 d2 : list (str * json)) : Prop :=
  Dict.keys d1 = Dict.keys d2
  /\ forall k : str, k <> "excerpt" -> sget k d1 = sget k d2.

(** * Sites and items of the examples *)

(** [n] item records with the ids [first], [first + 1], ... *)
Definition items_from (first : Z) (n : nat) : list json :=
  map (fun i => JObj [("id", JNum (first + Z.of_nat i))]) (seq 0 n).

(** Three pages of posts, of 100, 100 and 42 items; any other request
    finds no server. *)
Definition site_242 (url : str) : get_result :=
  if str_eqb url
       "https://blog.example.org/wp-json/wp/v2/posts?per_page=100&page=1&_embed"
  then ok_response (JArr (items_from 1 100))
  else if str_eqb url
       "https://blog.example.org/wp-json/wp/v2/posts?per_page=100&page=2&_embed"
  then ok_response (JArr (items_from 101 100))
  else if str_eqb url
       "https://blog.example.org/wp-json/wp/v2/posts?per_page=100&page=3&_embed"
  then ok_response (JArr (items_from 201 42))
  else GetRaises ConnectionError.



(** The answer 404. *)
Definition not_found : get_result :=
  Response {| status_code := 404; json_body := None |}.

(** A site with the two built-in taxonomies and the custom taxonomies
    genre and mood: the terms of mood are served, the request for the
    terms of genre is answered 404, like every other request. *)
Definition site_taxonomies (url : str) : get_result :=
  if str_eqb url "https://blog.example.org/wp-json/wp/v2/taxonomies" then
    ok_response (JObj [("category", JObj []); ("post_tag", JObj []);
                       ("genre", JObj []); ("mood", JObj [])])
  else if str_eqb url (page_url "https://blog.example.org" "mood" 100 1) then
    ok_response (JArr [JObj [("id", JNum 1); ("name", JStr "Calm")]])
  else not_found.

(** The same site when the request for the terms of genre finds no
    server. *)
Definition site_taxonomies_down (url : str) : get_result :=
  if str_eqb url (page_url "https://blog.example.org" "genre" 100 1) then
    GetRaises ConnectionError
  else site_taxonomies url.

(** A post by the author 7, in the category 5, with the tag 9, and the
    tables that name them. *)
Definition post_hi : list (str * json) :=
  [("id", JNum 12); ("date", JStr "2024-01-01"); ("slug", JStr "hi");
   ("title", JObj [("rendered", JStr "Hi")]);
   ("content", JObj [("rendered", JStr "<p>Hello</p>")]);
   ("excerpt", JObj [("rendered", JStr "<p>Hello</p>")]);
   ("author", JNum 7); ("categories", JArr [JNum 5]); ("tags", JArr [JNum 9])].

Definition authors_hi : list (json * json) := [(JNum 7, JStr "Alice")].
Definition categories_hi : term_table :=
  [(JNum 5, {| term_id := JNum 5; term_name := JStr "News" |})].
Definition tags_hi : term_table :=
  [(JNum 9, {| term_id := JNum 9; term_name := JStr "intro" |})].

(** An item whose fields come in another order, with an ACF bundle and a
    genre field, on a site that has the custom taxonomy genre. *)
Definition post_acf : list (str * json) :=
  [("date", JStr "2024-01-01"); ("title", JObj [("rendered", JStr "Hi")]);
   ("genre", JArr [JNum 3]); ("acf", JObj [("colour", JStr "red")])].

Definition taxonomies_genre : taxonomy_table :=
  [("genre", [(JNum 3, {| term_id := JNum 3; term_name := JStr "Rock" |})])].

(** What the item above is converted to, and the order of its keys. *)
Definition file_acf : markdown_file :=
  {| frontmatter :=
       [("title", JStr "Hi"); ("date", JStr "2024-01-01");
        ("author", JStr "Unknown"); ("excerpt", JStr "");
        ("custom_url", JStr ""); ("type", JStr "post"); ("categories", JArr []);
        ("tags", JArr []); ("acf", JObj [("colour", JStr "red")]);
        ("genre", JArr [JNum 3])];
     body := nlnl |}.

(** A converter that wraps its input, so that the output shows which
    segments went through it. *)
Definition marked (s : str) : str := "MD(" ++ s ++ ")".

(** A body with a structured block between two paragraphs. *)
Definition body_group : str :=
  "<p>Hello</p><div class='wp-block-group'><b>x</b></div><p>Bye</p>".

(** A block that shows a Markdown image reference, and a paragraph that
    carries the marker in its class before a block. *)
Definition body_code : str :=
  "<div class='wp-block-code'>![a](https://example.com/wp-content/uploads/x.png)</div>".

Definition body_paragraph : str :=
  "<p class='wp-block-paragraph'><b>Hi</b></p><div class='wp-block-group'>x</div>".

(** A site that serves one full page of two posts and then goes down. *)
Definition site_drop (url : str) : get_result :=
  if str_eqb url (page_url "https://blog.example.org" "posts" 2 1)
  then ok_response (JArr (items_from 1 2))
  else GetRaises ConnectionError.

(** A site that serves one full page of two posts and then a body that
    is the number 7. *)
Definition site_number (url : str) : get_result :=
  if str_eqb url (page_url "https://blog.example.org" "posts" 2 1)
  then ok_response (JArr (items_from 1 2))
  else ok_response (JNum 7).

(** A site given by the answers to some URLs; it answers 404 to the
    others. *)
Definition serve (routes : list (str * get_result)) (url : str) : get_result :=
  match Dict.get str_eqb url routes with
  | Some r => r
  | None => not_found
  end.

(** A response with a success status and a body that is not JSON. *)
Definition not_json : get_result :=
  Response {| status_code := 200; json_body := None |}.

Definition record (i : Z) (name : str) : json :=
  JObj [("id", JNum i); ("name", JStr name); ("count", JNum 3)].

(** A small site: one user, two categories, tags that are not JSON, and
    the custom taxonomies series and genre, the second with a term that
    has no id. *)
Definition site_small : str -> get_result :=
  serve
    [(page_url "https://blog.example.org" "users" 100 1,
      ok_response (JArr [record 7 "Alice"]));
     (page_url "https://blog.example.org" "categories" 100 1,
      ok_response (JArr [record 5 "News"; record 8 "Travel"]));
     (page_url "https://blog.example.org" "tags" 100 1, not_json);
     (page_url "https://blog.example.org" "genre" 100 1,
      ok_response (JArr [record 1 "Rock"; JObj [("name", JStr "Pop")];
                         record 3 "Jazz"]));
     ("https://blog.example.org/wp-json/wp/v2/taxonomies",
      ok_response (JObj [("category", JObj []); ("series", JObj []);
                         ("genre", JObj [])]));
     (page_url "https://blog.example.org" "series" 100 1,
      ok_response (JArr [record 2 "Essays"]))].

(** What the post above is converted to, with the converter [marked]. *)
Definition file_hi : markdown_file :=
  {| frontmatter :=
       [("title", JStr "Hi"); ("date", JStr "2024-01-01"); ("author", JNum 7);
        ("excerpt", JStr "MD(<p>Hello</p>)"); ("custom_url", JStr "hi");
        ("type", JStr "post"); ("categories", JArr [JNum 5]);
        ("tags", JArr [JNum 9]); ("id", JNum 12); ("slug", JStr "hi")];
     body := "MD(<p>Hello</p>)" ++ nlnl |}.

(** What the same post is converted to without Markdown mode, with a
    converter that returns its input. *)
Definition file_hi_raw : markdown_file :=
  {| frontmatter :=
       [("title", JStr "Hi"); ("date", JStr "2024-01-01"); ("author", JNum 7);
        ("excerpt", JStr "<p>Hello</p>"); ("custom_url", JStr "hi");
        ("type", JStr "post"); ("categories", JArr [JNum 5]);
        ("tags", JArr [JNum 9]); ("id", JNum 12); ("slug", JStr "hi")];
     body := "<p>Hello</p>" ++ nlnl |}.

(** A page, and what it is converted to. *)
Definition page_about : list (str * json) :=
  [("id", JNum 2); ("slug", JStr "about"); ("title", JObj [("rendered", JStr "About")]);
   ("content", JObj [("rendered", JStr "<p>Us</p>")])].

Definition file_about : markdown_file :=
  {| frontmatter :=
       [("title", JStr "About"); ("date", JStr ""); ("author", JStr "Unknown");
        ("excerpt", JStr "MD()"); ("custom_url", JStr "about");
        ("type", JStr "page"); ("categories", JArr []); ("tags", JArr []);
        ("id", JNum 2); ("slug", JStr "about")];
     body := "MD(<p>Us</p>)" ++ nlnl |}.

(** A site with one post and one page, and a site whose second post is
    not an object. *)
Definition site_batch : str -> get_result :=
  serve
    [(page_url "https://blog.example.org" "posts" 100 1,
      ok_response (JArr [JObj post_hi]));
     (page_url "https://blog.example.org" "pages" 100 1,
      ok_response (JArr [JObj page_about]))].

Definition site_batch_bad : str -> get_result :=
  serve
    [(page_url "https://blog.example.org" "posts" 100 1,
      ok_response (JArr [JObj post_hi; JStr "oops"; JObj post_acf]));
     (page_url "https://blog.example.org" "pages" 100 1,
      ok_response (JArr [JObj page_about]))].

(** * Verification *)

Unset Implicit Arguments.

(** ** Strings and dictionaries *)

Lemma str_eqb_eq (a b : str) : str_eqb a b = true <-> a = b.
Proof.
  unfold str_eqb. destruct (list_eq_dec ascii_dec a b); split; congruence.
Qed.

Lemma str_eqb_refl (a : str) : str_eqb a a = true.
Proof. now apply str_eqb_eq. Qed.

Lemma str_eqb_neq' (a b : str) : str_eqb a b = false -> a <> b.
Proof. intros H ->. now rewrite str_eqb_refl in H. Qed.

Section DictKeys.
Variable V : Type.
Implicit Types d : list (str * V).

Lemma keys_set k v d :
  Dict.keys (Dict.set str_eqb k v d) = add_key (Dict.keys d) k.
Proof.
  unfold add_key. induction d as [|[k' v'] d IH]; simpl; [reflexivity|].
  destruct (str_eqb k k'); simpl; [reflexivity|].
  rewrite IH. now destruct (existsb (str_eqb k) (Dict.keys d)).
Qed.

Lemma keys_update d other :
  Dict.keys (Dict.update str_eqb d other) = add_keys (Dict.keys d) (Dict.keys other).
Proof.
  unfold Dict.update, add_keys. revert d.
  induction other as [|[k v] other IH]; intros d; simpl; [reflexivity|].
  now rewrite IH, keys_set.
Qed.

End DictKeys.

Lemma add_key_incl ks k x : In x ks -> In x (add_key ks k).
Proof.
  unfold add_key. destruct (existsb (str_eqb k) ks); [auto|].
  intros H. apply in_or_app. now left.
Qed.

Lemma add_keys_incl new ks x : In x ks -> In x (add_keys ks new).
Proof.
  unfold add_keys. revert ks.
  induction new as [|k new IH]; intros ks H; simpl; [assumption|].
  now apply IH, add_key_incl.
Qed.

Lemma add_key_present ks k : In k ks -> add_key ks k = ks.
Proof.
  intros H. unfold add_key.
  replace (existsb (str_eqb k) ks) with true; [reflexivity|].
  symmetry. apply existsb_exists. exists k. split; [assumption|apply str_eqb_refl].
Qed.

Lemma add_key_absent ks k : ~ In k ks -> add_key ks k = ks ++ [k].
Proof.
  intros H. unfold add_key.
  destruct (existsb (str_eqb k) ks) eqn:E; [|reflexivity].
  apply existsb_exists in E. destruct E as (x & Hx & E).
  apply str_eqb_eq in E. now subst.
Qed.

Lemma add_keys_app ks a b : add_keys ks (a ++ b) = add_keys (add_keys ks a) b.
Proof. apply fold_left_app. Qed.

(** Keys are only ever appended: the keys present stay where they are. *)
Lemma add_key_prefix ks k : exists more, add_key ks k = ks ++ more.
Proof.
  unfold add_key. destruct (existsb (str_eqb k) ks).
  - exists []. now rewrite app_nil_r.
  - now exists [k].
Qed.

Lemma add_keys_prefix new ks : exists more, add_keys ks new = ks ++ more.
Proof.
  unfold add_keys. revert ks.
  induction new as [|k new IH]; intros ks; simpl.
  - exists []. now rewrite app_nil_r.
  - destruct (add_key_prefix ks k) as [m1 ->].
    destruct (IH (ks ++ m1)) as [m2 ->].
    exists (m1 ++ m2). now rewrite app_assoc.
Qed.

(** Going through an intermediate dictionary, as the catch-all does,
    only removes repeated keys. *)
Lemma add_keys_dedup new ks acc :
  add_keys ks (add_keys acc new) = add_keys (add_keys ks acc) new.
Proof.
  revert acc. induction new as [|k new IH]; intros acc; [reflexivity|].
  change (add_keys acc (k :: new)) with (add_keys (add_key acc k) new).
  change (add_keys (add_keys ks acc) (k :: new))
    with (add_keys (add_key (add_keys ks acc) k) new).
  rewrite IH. f_equal.
  destruct (in_dec (list_eq_dec ascii_dec) k acc) as [Hin|Hout].
  - rewrite (add_key_present _ _ Hin).
    symmetry. apply add_key_present. unfold add_keys.
    clear -Hin. revert ks. induction acc as [|a acc IHa]; [easy|].
    intros ks. simpl. destruct Hin as [->|Hin].
    + apply add_keys_incl. unfold add_key.
      destruct (existsb (str_eqb k) ks) eqn:E.
      * apply existsb_exists in E. destruct E as (x & Hx & E).
        apply str_eqb_eq in E. now subst.
      * apply in_or_app. right. now left.
    + now apply IHa.
  - rewrite (add_key_absent _ _ Hout). now rewrite add_keys_app.
Qed.

(** ** Term names *)

Lemma map_names_ints (terms : term_table) (ids : list Z) :
  map_names terms (map JNum ids) = Ok (map (resolved_name terms) ids).
Proof.
  induction ids as [|i ids IH]; simpl; [reflexivity|].
  now rewrite IH.
Qed.

(** C4. For every list of integer term ids and every term table,
    [map_term_ids_to_names] returns, without raising, the list of the
    ids' names in the order of the ids and of the same length: the name of
    the term for an id of the table, the placeholder [Unknown (ID: id)]
    for an id that is not in it.  Ids 5 and 99 with a table that holds
    only the term 5, News, give News and Unknown (ID: 99). *)
Theorem map_term_ids_to_names_spec :
  (forall (ids : list Z) (terms : term_table),
      map_term_ids_to_names (JArr (map JNum ids)) terms
        = Ok (map (resolved_name terms) ids)
      /\ length (map (resolved_name terms) ids) = length ids)
  /\ (forall (terms : term_table) (i : Z) (t : term),
        Dict.get key_eqb (JNum i) terms = Some t ->
        resolved_name terms i = term_name t)
  /\ (forall (terms : term_table) (i : Z),
        Dict.get key_eqb (JNum i) terms = None ->
        resolved_name terms i = JStr ("Unknown (ID: " ++ str_of_Z i ++ ")"))
  /\ map_term_ids_to_names (JArr [JNum 5; JNum 99])
       [(JNum 5, {| term_id := JNum 5; term_name := JStr "News" |})]
     = Ok [JStr "News"; JStr "Unknown (ID: 99)"].
Proof.
  repeat split.
  - apply map_names_ints.
  - apply length_map.
  - intros terms i t H. unfold resolved_name. now rewrite H.
  - intros terms i H. unfold resolved_name. now rewrite H.
Qed.

(** ** The paginated fetcher *)

Lemma ok_status (j : json) :
  raises_for_status {| status_code := 200; json_body := Some j |} = false.
Proof. reflexivity. Qed.

Section FetchLoop.
Variable http : str -> get_result.
Variables domain_url endpoint : str.
Variable per_page : Z.

Lemma page_urls_S first n :
  page_urls domain_url endpoint per_page first (S n)
    = page_url domain_url endpoint per_page first :: page_urls domain_url endpoint per_page (first + 1) n.
Proof.
  unfold page_urls. simpl. rewrite Z.add_0_r. f_equal.
  rewrite <- seq_shift, map_map. apply map_ext. intros i.
  f_equal. lia.
Qed.

Lemma serves_full_pages_tail first l pages :
  serves_full_pages http domain_url endpoint per_page first (l :: pages) -> serves_full_pages http domain_url endpoint per_page (first + 1) pages.
Proof.
  intros H i l' Hi. specialize (H (S i) l' Hi).
  replace (first + 1 + Z.of_nat i) with (first + Z.of_nat (S i)) by lia.
  exact H.
Qed.

(** Over full pages the loop requests each page once, in order, and
    appends its items. *)
Lemma fetch_loop_full_pages pages : forall first fuel data log,
  serves_full_pages http domain_url endpoint per_page first pages ->
  fetch_loop http (length pages + fuel) domain_url endpoint per_page first data log
  = fetch_loop http fuel domain_url endpoint per_page
      (first + Z.of_nat (length pages)) (data ++ concat pages)
      (log ++ page_urls domain_url endpoint per_page first (length pages)).
Proof.
  induction pages as [|l pages IH]; intros first fuel data log H.
  - simpl. now rewrite Z.add_0_r, !app_nil_r.
  - destruct (H O l eq_refl) as (Hget & Hne & Hlen).
    rewrite Z.add_0_r in Hget.
    change (length (l :: pages) + fuel)%nat with (S (length pages + fuel)).
    cbn [fetch_loop]. rewrite Hget. cbn [ok_response]. rewrite ok_status. cbn [json_body].
    assert (Ht : truthy (JArr l) = true) by (destruct l; [congruence|reflexivity]).
    rewrite Ht. cbn [negb py_iter].
    assert (Hlt : (Z.of_nat (length l) <? per_page) = false) by (apply Z.ltb_ge; lia).
    rewrite Hlt.
    rewrite IH by (eapply serves_full_pages_tail; eassumption).
    cbn [length concat]. rewrite page_urls_S.
    f_equal; [lia | now rewrite <- app_assoc | now rewrite <- app_assoc].
Qed.



(** A failed page: an error status or a body that is not JSON. *)
Lemma fetch_loop_failed_page fuel page data log r :
  http (page_url domain_url endpoint per_page page) = Response r ->
  raises_for_status r = true \/ json_body r = None ->
  fetch_loop http (S fuel) domain_url endpoint per_page page data log
  = (Ok data, log ++ [page_url domain_url endpoint per_page page]).
Proof.
  intros Hget Hfail. cbn [fetch_loop]. rewrite Hget.
  destruct (raises_for_status r); [reflexivity|].
  destruct Hfail as [Hfail|Hfail]; [discriminate|]. now rewrite Hfail.
Qed.
End FetchLoop.

Lemma page_urls_snoc domain_url endpoint per_page first n :
  page_urls domain_url endpoint per_page first (S n)
  = page_urls domain_url endpoint per_page first n
      ++ [page_url domain_url endpoint per_page (first + Z.of_nat n)].
Proof. unfold page_urls. now rewrite seq_S, map_app. Qed.





(** *** A site with 242 posts *)


(** *** A site whose second page of posts fails *)


(** *** A site whose second page of posts has moved *)


(** ** Custom taxonomies *)

(** On every site, the terms of a taxonomy whose first page fails are
    the empty table, not an exception: [fetch_terms_by_taxonomy] raises
    no [HTTPError] for the handler of [fetch_custom_taxonomies] to
    catch. *)
Lemma fetch_terms_failed_is_empty :
  forall (http : str -> get_result) (fuel : nat) (domain_url taxonomy : str)
         (r : response),
    http (page_url domain_url taxonomy 100 1) = Response r ->
    raises_for_status r = true \/ json_body r = None ->
    fetch_terms_by_taxonomy http (S fuel) domain_url taxonomy = Ok [].
Proof.
  intros http fuel domain_url taxonomy r Hget Hfail.
  unfold fetch_terms_by_taxonomy, fetch_wordpress_data.
  now rewrite (fetch_loop_failed_page _ _ _ _ _ _ _ _ _ Hget Hfail).
Qed.

(** C8, on the code.  A taxonomy whose terms cannot be fetched because of
    an error status is in the table all the same, with an empty mapping:
    the fetcher has swallowed the error, and the handler that would skip
    the taxonomy never runs.  When the request itself raises, the whole
    table is lost, the terms of the other taxonomy included. *)
Theorem failed_taxonomy_is_kept_empty :
  fetch_custom_taxonomies site_taxonomies 2 "https://blog.example.org"
  = Ok [("genre", []);
        ("mood", [(JNum 1, {| term_id := JNum 1; term_name := JStr "Calm" |})])]
  /\ fetch_custom_taxonomies site_taxonomies_down 2 "https://blog.example.org"
     = Ok [].
Proof. split; vm_compute; reflexivity. Qed.

(** ** The frontmatter *)

Lemma bind_Ok {A B} (m : outcome A) (f : A -> outcome B) (b : B) :
  bind m f = Ok b -> exists a, m = Ok a /\ f a = Ok b.
Proof. destruct m; simpl; intros H; try discriminate. now exists a. Qed.

Ltac bind_inv H :=
  let a := fresh "v" in
  let Ha := fresh "Hv" in
  apply bind_Ok in H; destruct H as (a & Ha & H).

(** *** What the catch-all does to the fields of the item *)

Lemma get_absent {V} k (d : list (str * V)) :
  ~ In k (Dict.keys d) -> Dict.get str_eqb k d = None.
Proof.
  induction d as [|[k' v'] d IH]; intros H; [reflexivity|].
  cbn [Dict.get]. destruct (str_eqb k k') eqn:E.
  - apply str_eqb_eq in E. subst. exfalso. apply H. now left.
  - apply IH. intros Hin. apply H. now right.
Qed.

Lemma get_set_same {V} k v (d : list (str * V)) :
  Dict.get str_eqb k (Dict.set str_eqb k v d) = Some v.
Proof.
  induction d as [|[k' v'] d IH]; cbn [Dict.set Dict.get].
  - now rewrite str_eqb_refl.
  - destruct (str_eqb k k') eqn:E; cbn [Dict.get]; rewrite E; [reflexivity|exact IH].
Qed.

Lemma get_set_other {V} k k' v (d : list (str * V)) :
  k <> k' -> Dict.get str_eqb k (Dict.set str_eqb k' v d) = Dict.get str_eqb k d.
Proof.
  intros Hne. induction d as [|[k1 v1] d IH]; cbn [Dict.set Dict.get].
  - destruct (str_eqb k k') eqn:E; [|reflexivity].
    apply str_eqb_eq in E. contradiction.
  - destruct (str_eqb k' k1) eqn:E1; cbn [Dict.get].
    + apply str_eqb_eq in E1. subst k1.
      destruct (str_eqb k k') eqn:E; [|reflexivity].
      apply str_eqb_eq in E. contradiction.
    + now rewrite IH.
Qed.

(** After [d.update(other)] a key of [other] has the value that [other]
    gives it. *)
Lemma get_update {V} k (other : list (str * V)) : forall d,
  NoDup (Dict.keys other) ->
  Dict.get str_eqb k (Dict.update str_eqb d other)
  = match Dict.get str_eqb k other with
    | Some v => Some v
    | None => Dict.get str_eqb k d
    end.
Proof.
  unfold Dict.update.
  induction other as [|[k1 v1] other IH]; intros d Hnd; [reflexivity|].
  cbn [Dict.keys map fst] in Hnd. inversion Hnd as [|? ? Hout Hnd']; subst.
  cbn [fold_left fst snd Dict.get]. rewrite (IH _ Hnd').
  destruct (str_eqb k k1) eqn:E.
  - apply str_eqb_eq in E. subst k1.
    now rewrite (get_absent _ _ Hout), get_set_same.
  - apply str_eqb_neq' in E. now rewrite get_set_other.
Qed.

Lemma get_filter k (post : list (str * json)) :
  Dict.get str_eqb k (filter (fun kv => negb (is_excluded (fst kv))) post)
  = if is_excluded k then None else Dict.get str_eqb k post.
Proof.
  induction post as [|[k1 v1] post IH]; cbn [filter Dict.get fst].
  - now destruct (is_excluded k).
  - destruct (str_eqb k k1) eqn:E.
    + apply str_eqb_eq in E. subst k1.
      destruct (is_excluded k) eqn:Ex; cbn [negb Dict.get].
      * rewrite IH. try rewrite Ex. reflexivity.
      * now rewrite str_eqb_refl.
    + destruct (is_excluded k1); cbn [negb Dict.get]; [|rewrite E]; exact IH.
Qed.

Lemma NoDup_keys_filter {V} (f : str * V -> bool) (d : list (str * V)) :
  NoDup (Dict.keys d) -> NoDup (Dict.keys (filter f d)).
Proof.
  induction d as [|[k v] d IH]; intros H; [constructor|].
  cbn [Dict.keys map fst] in H. inversion H as [|? ? Hout H']; subst.
  cbn [filter]. destruct (f (k, v)); [|now apply IH].
  cbn [Dict.keys map fst]. constructor; [|now apply IH].
  intros Hin. apply Hout. unfold Dict.keys in *.
  apply in_map_iff in Hin. destruct Hin as ([k' v'] & <- & Hin).
  apply filter_In in Hin. apply in_map_iff. exists (k', v'). now split.
Qed.

Lemma update_empty {V} (d : list (str * V)) :
  NoDup (Dict.keys d) -> Dict.update str_eqb [] d = d.
Proof.
  unfold Dict.update.
  assert (G : forall acc, NoDup (Dict.keys (acc ++ d)) ->
              fold_left (fun a kv => Dict.set str_eqb (fst kv) (snd kv) a) d acc
              = acc ++ d).
  { induction d as [|[k v] d IH]; intros acc H; cbn [fold_left fst snd].
    - now rewrite app_nil_r.
    - assert (Hset : Dict.set str_eqb k v acc = acc ++ [(k, v)]).
      { unfold Dict.keys in H. rewrite map_app in H. cbn [map fst] in H.
        apply NoDup_remove_2 in H.
        assert (Hout : ~ In k (Dict.keys acc))
          by (intros Hin; apply H, in_or_app; now left).
        clear -Hout. induction acc as [|[k1 v1] acc IHa]; [reflexivity|].
        cbn [Dict.set app]. destruct (str_eqb k k1) eqn:E.
        - apply str_eqb_eq in E. subst. exfalso. apply Hout. now left.
        - rewrite IHa; [reflexivity|]. intros Hin. apply Hout. now right. }
      rewrite Hset, IH; rewrite <- app_assoc; [reflexivity|exact H]. }
  intros H. now apply (G []).
Qed.

(** Every field of an item that the catch-all keeps is emitted with the
    value that the item gives it, except the title: the values that
    [convert_post_to_md] has computed before for the same keys are
    lost. *)
Lemma catch_all_overwrites :
  forall (handle : str -> str) (domain_url : str) (post : list (str * json))
         (authors : list (json * json)) (categories tags : term_table)
         (custom_taxonomies : taxonomy_table) (post_type : str) (use_markdown : bool)
         (f : markdown_file) (k : str) (v : json),
    NoDup (Dict.keys post) ->
    convert_post_to_md handle domain_url post authors categories tags
      custom_taxonomies post_type use_markdown = Ok f ->
    sget k post = Some v -> is_excluded k = false -> k <> "title" ->
    sget k (frontmatter f) = Some v.
Proof.
  intros handle domain_url post authors categories tags custom_taxonomies
         post_type use_markdown f k v Hnd H Hk Hex Htitle.
  unfold convert_post_to_md in H. repeat bind_inv H. injection H as <-.
  unfold save_as_markdown, sget, sset in *. cbn [frontmatter].
  rewrite get_set_other by assumption.
  rewrite update_empty by now apply NoDup_keys_filter.
  rewrite get_update by now apply NoDup_keys_filter.
  now rewrite get_filter, Hex, Hk.
Qed.

(** C1, on the code.  The catch-all leaves out only content, excerpt,
    guid, _links, _embedded and acf.  The item's own author, categories
    and tags fields go through it and replace the resolved author name
    and term names by the raw ids, and the slug is written a second time
    under its own key. *)
Theorem resolved_names_are_overwritten :
  forall (handle : str -> str) (domain_url : str),
    exists f,
      convert_post_to_md handle domain_url post_hi authors_hi categories_hi tags_hi
        [] "post" true = Ok f
      /\ sget "author" (frontmatter f) = Some (JNum 7)
      /\ sget "categories" (frontmatter f) = Some (JArr [JNum 5])
      /\ sget "tags" (frontmatter f) = Some (JArr [JNum 9])
      /\ sget "custom_url" (frontmatter f) = Some (JStr "hi")
      /\ sget "slug" (frontmatter f) = Some (JStr "hi").
Proof.
  intros handle domain_url. eexists. split; [reflexivity|].
  repeat split.
Qed.

(** *** The order of the keys *)

Lemma keys_add_taxonomies post custom_taxonomies : forall fm fm',
  add_taxonomies post custom_taxonomies fm = Ok fm' ->
  Dict.keys fm' = add_keys (Dict.keys fm) (taxonomy_keys post custom_taxonomies).
Proof.
  induction custom_taxonomies as [|[taxonomy terms] rest IH]; intros fm fm' H.
  - simpl in H. now injection H as <-.
  - unfold taxonomy_keys. cbn [add_taxonomies Dict.keys map filter fst] in *.
    destruct (Dict.mem str_eqb taxonomy post).
    + bind_inv H. apply IH in H. rewrite H. unfold sset. now rewrite keys_set.
    + now apply IH.
Qed.

Lemma keys_filter (post : list (str * json)) :
  Dict.keys (filter (fun kv => negb (is_excluded (fst kv))) post) = metadata_keys post.
Proof.
  unfold metadata_keys, Dict.keys.
  induction post as [|[k v] post IH]; simpl; [reflexivity|].
  destruct (is_excluded k); simpl; now rewrite IH.
Qed.

Lemma keys_save_as_markdown fm content :
  In "title" (Dict.keys fm) ->
  Dict.keys (frontmatter (save_as_markdown fm content)) = Dict.keys fm.
Proof.
  intros H. unfold save_as_markdown, sset. cbn [frontmatter].
  rewrite keys_set. now apply add_key_present.
Qed.

(** C7, as the code has it.  The keys of the emitted frontmatter are, in
    this order: title, date, author, excerpt, custom_url, type,
    categories, tags; then acf when the item carries an ACF bundle that is
    not empty; then the custom taxonomies that are fields of the item;
    then the fields of the item that the catch-all keeps, in the order of
    the item; a key that is already there keeps its place.  So the first
    eight keys are always the same, whatever the order of the item's
    fields, and the first two are title and date. *)
Theorem frontmatter_key_order :
  forall (handle : str -> str) (domain_url : str) (post : list (str * json))
         (authors : list (json * json)) (categories tags : term_table)
         (custom_taxonomies : taxonomy_table) (post_type : str) (use_markdown : bool)
         (f : markdown_file),
    convert_post_to_md handle domain_url post authors categories tags
      custom_taxonomies post_type use_markdown = Ok f ->
    Dict.keys (frontmatter f)
    = add_keys (add_keys (leading_keys ++ acf_key post)
                         (taxonomy_keys post custom_taxonomies))
               (metadata_keys post)
    /\ firstn 8 (Dict.keys (frontmatter f)) = leading_keys
    /\ firstn 2 (Dict.keys (frontmatter f)) = ["title"; "date"].
Proof.
  intros handle domain_url post authors categories tags custom_taxonomies
         post_type use_markdown f H.
  unfold convert_post_to_md in H.
  repeat bind_inv H.
  injection H as <-.
  assert (Hkeys : Dict.keys v8
                  = add_keys (leading_keys ++ acf_key post)
                             (taxonomy_keys post custom_taxonomies)).
  { apply keys_add_taxonomies in Hv8. rewrite Hv8. f_equal.
    unfold acf_key. destruct (truthy (get_or "acf" JNull post)); reflexivity. }
  assert (Hall : Dict.keys (frontmatter (save_as_markdown
                   (Dict.update str_eqb v8
                      (Dict.update str_eqb []
                         (filter (fun kv => negb (is_excluded (fst kv))) post)))
                   (process_media_links (convert_content handle use_markdown v1)
                      domain_url)))
                 = add_keys (add_keys (leading_keys ++ acf_key post)
                                      (taxonomy_keys post custom_taxonomies))
                            (metadata_keys post)).
  { rewrite keys_save_as_markdown.
    - rewrite !keys_update, keys_filter, add_keys_dedup. cbn [Dict.keys map].
      now rewrite Hkeys.
    - rewrite keys_update, Hkeys. do 2 apply add_keys_incl.
      apply in_or_app. left. now left. }
  split; [exact Hall|].
  rewrite Hall.
  destruct (add_keys_prefix (taxonomy_keys post custom_taxonomies)
              (leading_keys ++ acf_key post)) as [m1 E1].
  rewrite E1.
  destruct (add_keys_prefix (metadata_keys post)
              ((leading_keys ++ acf_key post) ++ m1)) as [m2 E2].
  rewrite E2. rewrite <- !app_assoc. split; reflexivity.
Qed.

(** The key that follows tags is acf, which is neither a custom taxonomy
    nor a field that the catch-all keeps; the custom taxonomy genre comes
    after it.  (The keys do not depend on the converter: the identity
    stands for it.) *)
Lemma acf_precedes_custom_taxonomies :
  emitted_keys (convert_post_to_md (fun s => s) "https://blog.example.org" post_acf
                  [] [] [] taxonomies_genre "post" true)
  = Some ["title"; "date"; "author"; "excerpt"; "custom_url"; "type"; "categories";
          "tags"; "acf"; "genre"]
  /\ taxonomy_keys post_acf taxonomies_genre = ["genre"]
  /\ metadata_keys post_acf = ["date"; "title"; "genre"].
Proof. repeat split. Qed.

Lemma frontmatter_key_order_example :
  convert_post_to_md (fun s => s) "https://blog.example.org" post_acf
    [] [] [] taxonomies_genre "post" true = Ok file_acf
  /\ Dict.keys (frontmatter file_acf)
     = add_keys (add_keys (leading_keys ++ acf_key post_acf)
                          (taxonomy_keys post_acf taxonomies_genre))
                (metadata_keys post_acf)
  /\ firstn 8 (Dict.keys (frontmatter file_acf)) = leading_keys
  /\ firstn 2 (Dict.keys (frontmatter file_acf)) = ["title"; "date"].
Proof.
  split; [reflexivity|].
  apply (frontmatter_key_order (fun s => s) "https://blog.example.org" post_acf
           [] [] [] taxonomies_genre "post" true).
  reflexivity.
Defined.

(** ** The matcher *)

Lemma strip_prefix_app (l s : str) : strip_prefix l (l ++ s) = Some s.
Proof. induction l as [|a l IH]; simpl; [reflexivity|]. now rewrite Ascii.eqb_refl. Qed.

Lemma strip_prefix_Some (l s s' : str) : strip_prefix l s = Some s' -> s = l ++ s'.
Proof.
  revert s. induction l as [|a l IH]; intros s H; simpl in H.
  - now injection H as ->.
  - destruct s as [|c s]; [discriminate|].
    destruct (Ascii.eqb a c) eqn:E; [|discriminate].
    apply Ascii.eqb_eq in E. subst c. simpl. f_equal. now apply IH.
Qed.

Section StarFacts.
Variable cls : ascii -> bool.
Variable k : str -> option (list str * str).

(** A star that succeeds took a run [x] of its class and the rest of
    the pattern matched what follows, with the star's result. *)
Lemma star_sound greedy s x r :
  star cls k greedy s = Some (x, r) ->
  exists s', s = x ++ s' /\ forallb cls x = true /\ k s' = Some r.
Proof.
  revert x r. induction s as [|c s IH]; intros x r H.
  - cbn in H. unfold stop in H. destruct (k []) eqn:E; [|discriminate].
    injection H as <- <-. now exists [].
  - cbn [star] in H.
    assert (Hstop : stop k (c :: s) = Some (x, r) ->
                    exists s', c :: s = x ++ s' /\ forallb cls x = true /\ k s' = Some r).
    { unfold stop. destruct (k (c :: s)) eqn:E; [|discriminate].
      intros H'. injection H' as <- <-. now exists (c :: s). }
    assert (Htake : take c (star cls k greedy s) = Some (x, r) -> cls c = true ->
                    exists s', c :: s = x ++ s' /\ forallb cls x = true /\ k s' = Some r).
    { unfold take. destruct (star cls k greedy s) as [[x' r']|] eqn:E; [|discriminate].
      intros H' Hc. injection H' as <- <-.
      destruct (IH _ _ eq_refl) as (s' & -> & Hx & Hk).
      exists s'. simpl. now rewrite Hc, Hx. }
    destruct (cls c) eqn:Hc; [|now apply Hstop].
    destruct greedy.
    + destruct (take c (star cls k true s)) eqn:E.
      * injection H as ->. now apply Htake.
      * now apply Hstop.
    + destruct (stop k (c :: s)) eqn:E.
      * injection H as ->. now apply Hstop.
      * now apply Htake.
Qed.

Lemma star_stop greedy s : k s <> None -> star cls k greedy s <> None.
Proof.
  intros H.
  assert (Hstop : stop k s <> None) by (unfold stop; now destruct (k s)).
  destruct s as [|c s]; [exact Hstop|].
  cbn [star]. destruct (cls c); [|exact Hstop].
  destruct greedy.
  - now destruct (take c (star cls k true s)).
  - now destruct (stop k (c :: s)).
Qed.

(** A star succeeds as soon as some run of its class is followed by a
    text that the rest of the pattern matches. *)
Lemma star_complete greedy x s' :
  forallb cls x = true -> k s' <> None -> star cls k greedy (x ++ s') <> None.
Proof.
  intros Hx Hk. induction x as [|c x IH]; [now apply star_stop|].
  simpl in Hx. apply andb_prop in Hx. destruct Hx as [Hc Hx].
  specialize (IH Hx). cbn [app star]. rewrite Hc.
  assert (Htake : take c (star cls k greedy (x ++ s')) <> None).
  { unfold take. now destruct (star cls k greedy (x ++ s')) as [[? ?]|]. }
  destruct greedy.
  - now destruct (take c (star cls k true (x ++ s'))).
  - now destruct (stop k (c :: x ++ s')).
Qed.
End StarFacts.

(** A match consumes, atom by atom, texts that fit the atoms. *)
Lemma match_here_sound (re : regex) : forall s caps rest,
  match_here re s = Some (caps, rest) ->
  s = concat caps ++ rest /\ Forall2 fits re caps.
Proof.
  induction re as [|a re IH]; intros s caps rest H.
  - cbn in H. injection H as <- <-. now split.
  - destruct a as [l|cls|greedy cls]; cbn [match_here] in H.
    + destruct (strip_prefix l s) as [s'|] eqn:E; [|discriminate].
      apply strip_prefix_Some in E. subst s.
      unfold push in H. destruct (match_here re s') as [[caps' rest']|] eqn:E; [|discriminate].
      injection H as <- <-. destruct (IH _ _ _ E) as [-> HF].
      split; [simpl; now rewrite app_assoc | now constructor].
    + destruct s as [|c s]; [discriminate|].
      destruct (cls c) eqn:Hc; [|discriminate].
      unfold push in H. destruct (match_here re s) as [[caps' rest']|] eqn:E; [|discriminate].
      injection H as <- <-. destruct (IH _ _ _ E) as [-> HF].
      split; [reflexivity|]. constructor; [|assumption]. now exists c.
    + destruct (star cls (match_here re) greedy s) as [[x [caps' rest']]|] eqn:E;
        [|discriminate].
      injection H as <- <-.
      apply star_sound in E. destruct E as (s' & -> & Hx & Hk).
      destruct (IH _ _ _ Hk) as [-> HF].
      split; [simpl; now rewrite app_assoc | now constructor].
Qed.

(** [search] finds a match, and none starts before it. *)
Lemma search_sound (re : regex) : forall s pre caps rest,
  search re s = Some (pre, caps, rest) ->
  exists s', s = pre ++ s' /\ match_here re s' = Some (caps, rest).
Proof.
  induction s as [|c s IH]; intros pre caps rest H; cbn [search] in H.
  - destruct (match_here re []) as [[caps' rest']|] eqn:E; [|discriminate].
    injection H as <- <- <-. now exists [].
  - destruct (match_here re (c :: s)) as [[caps' rest']|] eqn:E.
    + injection H as <- <- <-. now exists (c :: s).
    + destruct (search re s) as [[[pre' caps'] rest']|] eqn:E'; [|discriminate].
      injection H as <- <- <-. destruct (IH _ _ _ eq_refl) as (s' & -> & Hm).
      now exists s'.
Qed.

Lemma search_decompose (re : regex) s pre caps rest :
  search re s = Some (pre, caps, rest) -> s = pre ++ concat caps ++ rest.
Proof.
  intros H. apply search_sound in H. destruct H as (s' & -> & Hm).
  apply match_here_sound in Hm. now destruct Hm as [-> _].
Qed.

Lemma search_here (re : regex) s caps rest :
  match_here re s = Some (caps, rest) -> search re s = Some ([], caps, rest).
Proof. intros H. destruct s; cbn [search]; now rewrite H. Qed.

(** [search] skips a character at which the pattern does not match. *)
Lemma search_skip (re : regex) c s :
  match_here re (c :: s) = None ->
  search re (c :: s)
  = match search re s with
    | Some (pre, caps, rest) => Some (c :: pre, caps, rest)
    | None => None
    end.
Proof. intros H. cbn [search]. now rewrite H. Qed.

(** *** Literal texts *)

Lemma contains_intro (l a b : str) : contains l (a ++ l ++ b) = true.
Proof.
  unfold contains. induction a as [|c a IH].
  - cbn [app]. rewrite (search_here [Lit l] (l ++ b) [l] b); [reflexivity|].
    cbn. now rewrite strip_prefix_app.
  - cbn [app search].
    destruct (match_here [Lit l] (c :: a ++ l ++ b)) as [[? ?]|]; [reflexivity|].
    now destruct (search [Lit l] (a ++ l ++ b)) as [[[? ?] ?]|].
Qed.

Lemma contains_false (l s a b : str) : contains l s = false -> s <> a ++ l ++ b.
Proof. intros H ->. now rewrite contains_intro in H. Qed.

(** ** Structured blocks *)

(** A match of the block pattern is a [div] whose opening tag holds the
    marker, up to a closing tag. *)
Lemma block_match_shape s caps rest :
  match_here block_re s = Some (caps, rest) ->
  exists x y z,
    caps = ["<div"; x; "wp-block"; y; ">"; z; "</div>"]
    /\ forallb not_gt x = true /\ forallb not_gt y = true
    /\ s = concat caps ++ rest.
Proof.
  intros H. apply match_here_sound in H. destruct H as [Hs HF].
  unfold block_re in HF.
  repeat match goal with
         | H : Forall2 fits (_ :: _) _ |- _ => inversion H; clear H; subst
         | H : Forall2 fits [] _ |- _ => inversion H; clear H; subst
         end.
  cbn [fits] in *. subst.
  eexists _, _, _. repeat split; eassumption.
Qed.

Lemma strip_id (c d : ascii) (s : str) :
  is_space c = false -> is_space d = false ->
  strip (c :: s ++ [d]) = c :: s ++ [d].
Proof.
  intros Hc Hd. unfold strip, rstrip.
  assert (L : forall a t, is_space a = false -> lstrip (a :: t) = a :: t)
    by (intros a t Ha; simpl; now rewrite Ha).
  assert (R : rev (c :: s ++ [d]) = d :: rev (c :: s))
    by (change (c :: s ++ [d]) with ((c :: s) ++ [d]); now rewrite rev_app_distr).
  rewrite L by assumption. rewrite R, L by assumption.
  rewrite <- R. apply rev_involutive.
Qed.

(** A matched block holds the marker, is not changed by [strip], and is
    not empty. *)
Lemma block_match_facts s caps rest :
  match_here block_re s = Some (caps, rest) ->
  contains "wp-block" (concat caps) = true
  /\ strip (concat caps) = concat caps
  /\ (length rest < length s)%nat.
Proof.
  intros H. destruct (block_match_shape _ _ _ H) as (x & y & z & -> & _ & _ & ->).
  split; [|split].
  - cbn [concat]. rewrite app_nil_r.
    replace ("<div" ++ x ++ "wp-block" ++ y ++ ">" ++ z ++ "</div>")
      with (("<div" ++ x) ++ "wp-block" ++ (y ++ ">" ++ z ++ "</div>"))
      by now rewrite <- !app_assoc.
    apply contains_intro.
  - cbn [concat]. rewrite app_nil_r.
    replace ("<div" ++ x ++ "wp-block" ++ y ++ ">" ++ z ++ "</div>")
      with ("<"%char :: ("div" ++ x ++ "wp-block" ++ y ++ ">" ++ z ++ "</div") ++ [">"%char])
      by (rewrite <- !app_assoc; reflexivity).
    now apply strip_id.
  - rewrite length_app. cbn [concat]. rewrite !length_app. cbn [length]. lia.
Qed.

(** One step of [re.split] at the first block of the text. *)
Lemma split_from_fuel : forall fuel1 fuel2 s,
  (length s <= fuel1)%nat -> (length s <= fuel2)%nat ->
  split_from fuel1 block_re s = split_from fuel2 block_re s.
Proof.
  induction fuel1 as [|fuel1 IH]; intros fuel2 s H1 H2.
  - destruct s; [|simpl in H1; lia].
    destruct fuel2; reflexivity.
  - destruct (search block_re s) as [[[pre caps] rest]|] eqn:E.
    + pose proof E as E'. apply search_sound in E'.
      destruct E' as (s' & -> & Hm).
      apply block_match_facts in Hm. destruct Hm as (_ & _ & Hlen).
      rewrite length_app in H1, H2.
      destruct fuel2 as [|fuel2]; [lia|].
      cbn [split_from]. rewrite E. do 2 f_equal. apply IH; lia.
    + destruct fuel2; cbn [split_from]; now rewrite E.
Qed.

Lemma re_split_block s pre caps rest :
  search block_re s = Some (pre, caps, rest) ->
  re_split block_re s = pre :: concat caps :: re_split block_re rest.
Proof.
  intros E. unfold re_split.
  pose proof E as E'. apply search_sound in E'. destruct E' as (s' & Hs & Hm).
  apply block_match_facts in Hm. destruct Hm as (_ & _ & Hlen).
  assert (Hl : (length rest < length s)%nat) by (subst s; rewrite length_app; lia).
  destruct (length s) as [|n] eqn:En; [lia|].
  cbn [split_from]. rewrite E. do 2 f_equal. apply split_from_fuel; lia.
Qed.

Lemma re_split_no_block s :
  search block_re s = None -> re_split block_re s = [s].
Proof. intros E. unfold re_split. destruct (length s); cbn [split_from]; now rewrite E. Qed.

(** A text without the marker holds no block. *)
Lemma search_block_none s : contains "wp-block" s = false -> search block_re s = None.
Proof.
  intros H. destruct (search block_re s) as [[[pre caps] rest]|] eqn:E; [|reflexivity].
  exfalso. pose proof (search_decompose _ _ _ _ _ E) as Hs.
  apply search_sound in E. destruct E as (s' & _ & Hm).
  destruct (block_match_shape _ _ _ Hm) as (x & y & z & -> & _ & _ & _).
  revert Hs. cbn [concat]. rewrite app_nil_r.
  replace (pre ++ ("<div" ++ x ++ "wp-block" ++ y ++ ">" ++ z ++ "</div>") ++ rest)
    with ((pre ++ "<div" ++ x) ++ "wp-block" ++ (y ++ ">" ++ z ++ "</div>" ++ rest))
    by now rewrite <- !app_assoc.
  now apply contains_false.
Qed.

(** *** Rendering *)

Section Render.
Variable handle : str -> str.

Lemma render_blocks_from use_markdown blocks : forall acc,
  fold_left (fun converted_content block =>
               converted_content ++ render_block handle use_markdown block)
            blocks acc
  = acc ++ render_blocks handle use_markdown blocks.
Proof.
  unfold render_blocks.
  induction blocks as [|b blocks IH]; intros acc; cbn [fold_left].
  - now rewrite app_nil_r.
  - rewrite IH, (IH ([] ++ _)). now rewrite app_assoc.
Qed.

Lemma render_blocks_cons use_markdown b blocks :
  render_blocks handle use_markdown (b :: blocks)
  = render_block handle use_markdown b ++ render_blocks handle use_markdown blocks.
Proof. unfold render_blocks at 1. cbn [fold_left]. apply render_blocks_from. Qed.
Lemma render_blocks_concat use_markdown body :
  convert_content handle use_markdown body
  = concat (map (render_block handle use_markdown) (re_split block_re body)).
Proof.
  unfold convert_content.
  induction (re_split block_re body) as [|b blocks IH]; [reflexivity|].
  rewrite render_blocks_cons, IH. reflexivity.
Qed.
End Render.

(** C9, as the code has it.  For a body that holds no marker, splitting
    yields the body as its one segment, and the converted content is what
    rendering the whole body as one segment gives: in Markdown mode the
    HTML-to-Markdown transformation applied once to the whole body,
    trimmed and followed by the blank line that ends every segment, and
    without Markdown mode the body itself, trimmed and followed by the
    blank line.  The converted content is the transformation of the whole
    body as it stands only when that already is a trimmed text followed by
    a blank line. *)
Theorem single_segment_roundtrip :
  forall (handle : str -> str) (use_markdown : bool) (html_content : str),
    contains "wp-block" html_content = false ->
    re_split block_re html_content = [html_content]
    /\ convert_content handle use_markdown html_content
       = render_blocks handle use_markdown [html_content]
    /\ convert_content handle true html_content
       = strip (handle html_content) ++ nlnl
    /\ convert_content handle false html_content
       = strip html_content ++ nlnl
    /\ (convert_content handle true html_content = handle html_content
        <-> handle html_content = strip (handle html_content) ++ nlnl).
Proof.
  intros handle use_markdown html_content H.
  assert (Hs : re_split block_re html_content = [html_content])
    by now apply re_split_no_block, search_block_none.
  assert (Ht : convert_content handle true html_content
               = strip (handle html_content) ++ nlnl).
  { unfold convert_content. rewrite Hs. unfold render_blocks. cbn [fold_left app].
    unfold render_block. now rewrite H. }
  split; [exact Hs|]. split; [unfold convert_content; now rewrite Hs|].
  split; [exact Ht|]. split.
  - unfold convert_content. rewrite Hs. unfold render_blocks. cbn [fold_left app].
    unfold render_block. now rewrite H.
  - rewrite Ht. split; intros E; now rewrite <- E at 1.
Qed.

(** ** Finding a block *)

Lemma contains_true_inv (l s : str) :
  contains l s = true -> exists a b, s = a ++ l ++ b.
Proof.
  unfold contains. intros H.
  destruct (search [Lit l] s) as [[[pre caps] rest]|] eqn:E; [|discriminate].
  pose proof (search_decompose _ _ _ _ _ E) as Hd.
  apply search_sound in E. destruct E as (s' & _ & Hm).
  apply match_here_sound in Hm. destruct Hm as [_ HF].
  inversion HF as [|? x ? ? Hx HF']; subst. inversion HF'; subst.
  cbn in Hx. subst x. exists pre, rest. cbn [concat]. now rewrite app_nil_r.
Qed.

(** A pattern matches every text made of pieces that fit its atoms
    (with the pieces that its priorities choose). *)
Lemma match_here_complete (re : regex) : forall caps rest,
  Forall2 fits re caps -> match_here re (concat caps ++ rest) <> None.
Proof.
  induction re as [|a re IH]; intros caps rest HF.
  - inversion HF. discriminate.
  - inversion HF as [|? x ? caps' Hx HF']; subst.
    specialize (IH caps' rest HF').
    cbn [concat]. rewrite <- app_assoc.
    destruct a as [l|cls|greedy cls]; cbn [fits] in Hx; cbn [match_here].
    + subst x. rewrite strip_prefix_app.
      unfold push. now destruct (match_here re (concat caps' ++ rest)) as [[? ?]|].
    + destruct Hx as (c & -> & Hc). cbn [app]. rewrite Hc.
      unfold push. now destruct (match_here re (concat caps' ++ rest)) as [[? ?]|].
    + pose proof (star_complete cls (match_here re) greedy x _ Hx IH) as Hs.
      now destruct (star cls (match_here re) greedy x) as [[? [? ?]]|];
        destruct (star cls (match_here re) greedy (x ++ concat caps' ++ rest))
          as [[? [? ?]]|].
Qed.

(** One atom of a match at a time. *)
Lemma match_lit l re s caps rest :
  match_here (Lit l :: re) s = Some (caps, rest) ->
  exists s' caps',
    s = l ++ s' /\ caps = l :: caps' /\ match_here re s' = Some (caps', rest).
Proof.
  cbn [match_here]. intros H.
  destruct (strip_prefix l s) as [s'|] eqn:E; [|discriminate].
  apply strip_prefix_Some in E.
  unfold push in H. destruct (match_here re s') as [[caps' rest']|] eqn:E'; [|discriminate].
  injection H as <- <-. now exists s', caps'.
Qed.

Lemma match_star greedy cls re s caps rest :
  match_here (Star greedy cls :: re) s = Some (caps, rest) ->
  exists x s' caps',
    s = x ++ s' /\ forallb cls x = true /\ caps = x :: caps'
    /\ match_here re s' = Some (caps', rest).
Proof.
  cbn [match_here]. intros H.
  destruct (star cls (match_here re) greedy s) as [[x [caps' rest']]|] eqn:E;
    [|discriminate].
  injection H as <- <-. apply star_sound in E. destruct E as (s' & Hs & Hx & Hk).
  now exists x, s', caps'.
Qed.

(** A lazy dot-star before a literal stops at the first occurrence of
    the literal. *)
Lemma lazy_star_search (l : str) : forall s,
  star any_char (match_here [Lit l]) false s
  = match search [Lit l] s with
    | Some (pre, caps, rest) => Some (pre, (caps, rest))
    | None => None
    end.
Proof.
  induction s as [|c s IH]; cbn [star search any_char]; unfold stop.
  - now destruct (match_here [Lit l] []) as [[? ?]|].
  - destruct (match_here [Lit l] (c :: s)) as [[? ?]|]; [reflexivity|].
    rewrite IH. unfold take.
    now destruct (search [Lit l] s) as [[[? ?] ?]|].
Qed.

Lemma lazy_until (l : str) (s : str) :
  match_here [Star false any_char; Lit l] s
  = match search [Lit l] s with
    | Some (pre, caps, rest) => Some (pre :: caps, rest)
    | None => None
    end.
Proof.
  change (match_here [Star false any_char; Lit l] s)
    with (match star any_char (match_here [Lit l]) false s with
          | Some (x, (caps, rest)) => Some (x :: caps, rest)
          | None => None
          end).
  rewrite lazy_star_search.
  now destruct (search [Lit l] s) as [[[? ?] ?]|].
Qed.

(** The opening tag of a block ends at the first [>]. *)
Lemma first_gt_unique : forall a a' t t' : str,
  forallb not_gt a = true -> forallb not_gt a' = true ->
  a ++ ">" ++ t = a' ++ ">" ++ t' -> a = a' /\ t = t'.
Proof.
  induction a as [|c a IH]; intros [|c' a'] t t' Ha Ha' H; cbn in *.
  - injection H as ->. now split.
  - injection H as <- _. discriminate.
  - injection H as -> _. discriminate.
  - injection H as -> H. apply andb_prop in Ha, Ha'.
    destruct (IH a' t t') as [-> ->]; now try split.
Qed.

(** The match of the block pattern, with the end that its lazy
    dot-star chooses. *)
Lemma block_match_inv s caps rest :
  match_here block_re s = Some (caps, rest) ->
  exists x y z t,
    s = "<div" ++ x ++ "wp-block" ++ y ++ ">" ++ t
    /\ forallb not_gt x = true /\ forallb not_gt y = true
    /\ search [Lit "</div>"] t = Some (z, ["</div>"], rest)
    /\ caps = ["<div"; x; "wp-block"; y; ">"; z; "</div>"].
Proof.
  unfold block_re. intros H.
  apply match_lit in H. destruct H as (s1 & c1 & -> & -> & H).
  apply match_star in H. destruct H as (x & s2 & c2 & -> & Hx & -> & H).
  apply match_lit in H. destruct H as (s3 & c3 & -> & -> & H).
  apply match_star in H. destruct H as (y & s4 & c4 & -> & Hy & -> & H).
  apply match_lit in H. destruct H as (t & c5 & -> & -> & H).
  rewrite lazy_until in H.
  destruct (search [Lit "</div>"] t) as [[[z c6] r6]|] eqn:E; [|discriminate].
  injection H as <- <-.
  pose proof E as E'. apply search_sound in E'. destruct E' as (t' & _ & Hm).
  apply match_lit in Hm. destruct Hm as (? & ? & _ & -> & Hm).
  cbn in Hm. injection Hm as <- _.
  exists x, y, z, t. now repeat split.
Qed.

(** A [div] whose opening tag holds the marker is matched up to the
    first closing tag that follows the opening tag. *)
Lemma block_here attrs t inner close post :
  forallb not_gt attrs = true -> contains "wp-block" attrs = true ->
  search [Lit "</div>"] t = Some (inner, close, post) ->
  exists caps,
    match_here block_re ("<div" ++ attrs ++ ">" ++ t) = Some (caps, post)
    /\ concat caps = "<div" ++ attrs ++ ">" ++ inner ++ "</div>".
Proof.
  intros Hattrs Hmark Hclose.
  destruct (match_here block_re ("<div" ++ attrs ++ ">" ++ t)) as [[caps rest]|] eqn:E.
  - destruct (block_match_inv _ _ _ E) as (x & y & z & t' & Hs & Hx & Hy & Hz & ->).
    apply app_inv_head in Hs.
    replace (x ++ "wp-block" ++ y ++ ">" ++ t')
      with ((x ++ "wp-block" ++ y) ++ ">" ++ t') in Hs by now rewrite <- !app_assoc.
    apply first_gt_unique in Hs; [|assumption|].
    + destruct Hs as [-> <-]. rewrite Hclose in Hz. injection Hz as <- _ <-.
      eexists. split; [reflexivity|].
      cbn [concat]. now rewrite app_nil_r, <- !app_assoc.
    + rewrite !forallb_app, Hx, Hy. reflexivity.
  - exfalso. destruct (contains_true_inv _ _ Hmark) as (a & b & ->).
    rewrite !forallb_app in Hattrs.
    apply andb_prop in Hattrs. destruct Hattrs as [Ha Hb].
    apply andb_prop in Hb. destruct Hb as [_ Hb].
    pose proof (search_decompose _ _ _ _ _ Hclose) as Ht.
    apply search_sound in Hclose. destruct Hclose as (t' & _ & Hm).
    apply match_lit in Hm. destruct Hm as (? & ? & _ & -> & Hm).
    cbn in Hm. injection Hm as <- _. cbn [concat] in Ht. rewrite app_nil_r in Ht.
    apply (match_here_complete block_re
             ["<div"; a; "wp-block"; b; ">"; inner; "</div>"] post).
    + unfold block_re.
      repeat (apply Forall2_cons || apply Forall2_nil); cbn [fits];
        try reflexivity; try assumption.
      now apply forallb_forall.
    + rewrite <- E. f_equal. subst t. cbn [concat].
      now rewrite app_nil_r, <- !app_assoc.
Qed.

(** No block starts in a text that holds no [<div]. *)
Lemma no_block_before pre s : forall a b,
  contains "<div" pre = false -> pre = a ++ b -> b <> [] ->
  match_here block_re (b ++ "<div" ++ s) = None.
Proof.
  intros a b Hpre -> Hb.
  destruct (strip_prefix "<div" (b ++ "<div" ++ s)) as [r|] eqn:E;
    [|unfold block_re; cbn [match_here]; now rewrite E].
  exfalso.
  apply strip_prefix_Some in E.
  destruct b as [|c1 [|c2 [|c3 [|c4 b]]]]; [congruence| | | |];
    cbn [app] in E; try congruence.
  injection E as -> -> -> -> _.
  revert Hpre. apply eq_true_false_abs.
  apply (contains_intro "<div" a b).
Qed.

Lemma search_after_text (re : regex) s : forall pre,
  (forall a b, pre = a ++ b -> b <> [] -> match_here re (b ++ s) = None) ->
  search re (pre ++ s)
  = match search re s with
    | Some (p, caps, rest) => Some (pre ++ p, caps, rest)
    | None => None
    end.
Proof.
  induction pre as [|c pre IH]; intros H.
  - cbn [app]. now destruct (search re s) as [[[? ?] ?]|].
  - cbn [app]. rewrite search_skip by (apply (H [] (c :: pre)); [reflexivity|discriminate]).
    rewrite IH; [now destruct (search re s) as [[[? ?] ?]|]|].
    intros a b -> Hb. now apply (H (c :: a) b).
Qed.

(** The first block of a body: after a text without [<div], a [div]
    whose opening tag holds the marker, up to its first closing tag. *)
Lemma block_found pre attrs t inner close post :
  contains "<div" pre = false ->
  forallb not_gt attrs = true -> contains "wp-block" attrs = true ->
  search [Lit "</div>"] t = Some (inner, close, post) ->
  exists caps,
    search block_re (pre ++ "<div" ++ attrs ++ ">" ++ t) = Some (pre, caps, post)
    /\ concat caps = "<div" ++ attrs ++ ">" ++ inner ++ "</div>".
Proof.
  intros Hpre Hattrs Hmark Hclose.
  destruct (block_here _ _ _ _ _ Hattrs Hmark Hclose) as (caps & Hm & Hc).
  exists caps. split; [|assumption].
  rewrite search_after_text by (intros a b; now apply no_block_before).
  rewrite (search_here _ _ _ _ Hm). now rewrite app_nil_r.
Qed.

(** *** The converted content around a block *)

Lemma convert_content_block handle use_markdown body pre caps post :
  search block_re body = Some (pre, caps, post) ->
  convert_content handle use_markdown body
  = render_block handle use_markdown pre ++ concat caps ++ nlnl
      ++ convert_content handle use_markdown post.
Proof.
  intros E. unfold convert_content. rewrite (re_split_block _ _ _ _ E).
  rewrite !render_blocks_cons. f_equal.
  apply search_sound in E. destruct E as (s' & _ & Hm).
  apply block_match_facts in Hm. destruct Hm as (Hmark & Hstrip & _).
  unfold render_block at 1. rewrite Hmark, Hstrip. now rewrite <- app_assoc.
Qed.

Lemma block_match_div s caps rest :
  match_here block_re s = Some (caps, rest) ->
  exists attrs inner,
    concat caps = "<div" ++ attrs ++ ">" ++ inner ++ "</div>"
    /\ forallb not_gt attrs = true /\ contains "wp-block" attrs = true.
Proof.
  intros H. destruct (block_match_inv _ _ _ H) as (x & y & z & t & _ & Hx & Hy & _ & ->).
  exists (x ++ "wp-block" ++ y), z. split; [|split].
  - cbn [concat]. now rewrite app_nil_r, <- !app_assoc.
  - now rewrite !forallb_app, Hx, Hy.
  - apply contains_intro.
Qed.

(** *** White space *)

Lemma strip_space (ws : str) : forallb is_space ws = true -> strip ws = [].
Proof.
  intros H. unfold strip, rstrip.
  assert (L : lstrip ws = []).
  { induction ws as [|c ws IH]; [reflexivity|].
    cbn in H. apply andb_prop in H. destruct H as [Hc H].
    cbn [lstrip]. rewrite Hc. now apply IH. }
  now rewrite L.
Qed.

Lemma space_contains (l ws : str) (c : ascii) (l' : str) :
  l = c :: l' -> is_space c = false ->
  forallb is_space ws = true -> contains l ws = false.
Proof.
  intros -> Hc H. destruct (contains (c :: l') ws) eqn:E; [|reflexivity].
  apply contains_true_inv in E. destruct E as (a & b & ->).
  rewrite forallb_app in H. apply andb_prop in H. destruct H as [_ H].
  cbn in H. rewrite Hc in H. discriminate.
Qed.

(** A segment of white space only is rendered to the blank line alone
    when it is not converted. *)
Lemma render_space handle (ws : str) :
  forallb is_space ws = true ->
  render_block handle true ws = strip (handle ws) ++ nlnl
  /\ render_block handle false ws = nlnl.
Proof.
  intros H. unfold render_block.
  rewrite (space_contains "wp-block" ws "w" "p-block" eq_refl eq_refl H).
  now rewrite (strip_space ws H).
Qed.

(** *** Closing tags *)

Lemma strip_prefix_longer : forall (l x rest : str),
  strip_prefix l x = None -> (length l <= length x)%nat ->
  strip_prefix l (x ++ rest) = None.
Proof.
  induction l as [|a l IH]; intros x rest H Hlen; [discriminate|].
  destruct x as [|c x]; [simpl in Hlen; lia|].
  cbn in H |- *. destruct (Ascii.eqb a c); [|reflexivity].
  apply IH; [assumption|simpl in Hlen; lia].
Qed.

(** When the first occurrence of a literal in a text is at its end, it
    is still the first one after more text is added. *)
Lemma search_lit_app (l : str) (rest : str) : forall inner,
  search [Lit l] (inner ++ l) = Some (inner, [l], []) ->
  search [Lit l] (inner ++ l ++ rest) = Some (inner, [l], rest).
Proof.
  assert (Hhere : forall s, match_here [Lit l] s
                            = match strip_prefix l s with
                              | Some s' => Some ([l], s')
                              | None => None
                              end) by reflexivity.
  induction inner as [|c inner IH]; intros H.
  - cbn [app]. apply search_here. now rewrite Hhere, strip_prefix_app.
  - cbn [app] in H |- *. cbn [search] in H.
    destruct (match_here [Lit l] (c :: inner ++ l)) as [[? ?]|] eqn:E; [discriminate|].
    rewrite search_skip.
    + rewrite IH; [reflexivity|].
      destruct (search [Lit l] (inner ++ l)) as [[[p cs] r]|]; [|discriminate].
      now injection H as -> -> ->.
    + rewrite Hhere in E |- *.
      destruct (strip_prefix l (c :: inner ++ l)) eqn:E'; [discriminate|].
      change (c :: inner ++ l ++ rest) with ((c :: inner) ++ l ++ rest).
      rewrite app_assoc. rewrite strip_prefix_longer; [reflexivity|exact E'|].
      cbn [app length]. rewrite length_app. lia.
Qed.

Lemma is_block_found pre b post :
  contains "<div" pre = false -> is_block b ->
  exists caps,
    search block_re (pre ++ b ++ post) = Some (pre, caps, post) /\ concat caps = b.
Proof.
  intros Hpre (attrs & inner & -> & Hattrs & Hmark & Hclose).
  apply (search_lit_app _ post) in Hclose.
  destruct (block_found pre _ _ _ _ _ Hpre Hattrs Hmark Hclose) as (caps & Hs & Hc).
  exists caps. split; [|assumption].
  rewrite <- !app_assoc. exact Hs.
Qed.

(** ** Media links *)

Lemma media_match_ref s caps rest :
  match_here media_re s = Some (caps, rest) ->
  exists a b, s = a ++ "](https://example" ++ b.
Proof.
  unfold media_re. intros H.
  apply match_lit in H. destruct H as (s1 & c1 & -> & -> & H).
  apply match_star in H. destruct H as (alt & s2 & c2 & -> & _ & -> & H).
  apply match_lit in H. destruct H as (s3 & c3 & -> & -> & H).
  apply match_lit in H. destruct H as (s4 & c4 & -> & -> & H).
  exists ("![" ++ alt), s4. now rewrite <- !app_assoc.
Qed.

Lemma search_media_none s :
  contains "](https://example" s = false -> search media_re s = None.
Proof.
  intros H. destruct (search media_re s) as [[[pre caps] rest]|] eqn:E; [|reflexivity].
  exfalso. apply search_sound in E. destruct E as (s' & -> & Hm).
  apply media_match_ref in Hm. destruct Hm as (a & b & ->).
  revert H. rewrite app_assoc. apply eq_true_false_abs, contains_intro.
Qed.

(** A content that nowhere holds the start of a reference to
    [https://example...] is not changed. *)
Lemma process_media_links_unchanged content media_base_url :
  contains "](https://example" content = false ->
  process_media_links content media_base_url = content.
Proof.
  intros H. unfold process_media_links, re_sub.
  destruct (length content); cbn [sub_from]; now rewrite (search_media_none _ H).
Qed.

(** C5, as the code has it.  The converted content is the
    concatenation of the renderings of the segments that [re.split]
    gives, each followed by a blank line.  A segment that holds the
    marker text is kept raw, trimmed, whatever the mode; any other segment
    is converted and trimmed in Markdown mode.  In a body whose first
    structured block is [concat caps], after the text [pre] and before the
    text [post], the converted content is the rendering of [pre], the
    block itself, character for character, and a blank line, then the
    converted content of [post]; the block is a [div] whose opening tag
    holds the marker.  The media links are then rewritten in the whole
    converted content, the blocks included; a content without the text
    [](https://example] is left as it is.  A [div] whose opening tag holds
    the marker and that follows a text without [<div] is the first
    structured block of a body. *)
Theorem block_kept_verbatim :
  (forall (handle : str -> str) (use_markdown : bool) (body : str),
      convert_content handle use_markdown body
      = concat (map (render_block handle use_markdown) (re_split block_re body)))
  /\ (forall (handle : str -> str) (use_markdown : bool) (segment : str),
        render_block handle use_markdown segment
        = (if contains "wp-block" segment then strip segment
           else if use_markdown then strip (handle segment) else strip segment)
            ++ nlnl)
  /\ (forall (handle : str -> str) (domain_url : str) (use_markdown : bool)
             (body pre : str) (caps : list str) (post : str),
        search block_re body = Some (pre, caps, post) ->
        body = pre ++ concat caps ++ post
        /\ (exists attrs inner,
              concat caps = "<div" ++ attrs ++ ">" ++ inner ++ "</div>"
              /\ forallb not_gt attrs = true /\ contains "wp-block" attrs = true)
        /\ re_split block_re body = pre :: concat caps :: re_split block_re post
        /\ convert_content handle use_markdown body
           = render_block handle use_markdown pre ++ concat caps ++ nlnl
               ++ convert_content handle use_markdown post
        /\ (contains "](https://example" (convert_content handle use_markdown body)
              = false ->
            process_media_links (convert_content handle use_markdown body) domain_url
            = convert_content handle use_markdown body))
  /\ (forall pre b post : str,
        contains "<div" pre = false -> is_block b ->
        exists caps,
          search block_re (pre ++ b ++ post) = Some (pre, caps, post)
          /\ concat caps = b).
Proof.
  split; [intros; apply render_blocks_concat|].
  split.
  { intros handle use_markdown segment. unfold render_block.
    now destruct (contains "wp-block" segment), use_markdown. }
  split; [|exact is_block_found].
  intros handle domain_url use_markdown body pre caps post E.
  split; [now apply (search_decompose block_re)|].
  split.
  { pose proof E as E'. apply search_sound in E'. destruct E' as (s' & _ & Hm).
    now apply block_match_div in Hm. }
  split; [now apply re_split_block|].
  split; [now apply convert_content_block|].
  apply process_media_links_unchanged.
Qed.

(** *** Examples *)

Lemma block_kept_verbatim_example :
  search block_re body_group
  = Some ("<p>Hello</p>",
          ["<div"; " class='"; "wp-block"; "-group'"; ">"; "<b>x</b>"; "</div>"],
          "<p>Bye</p>")
  /\ convert_content marked true body_group
     = "MD(<p>Hello</p>)" ++ nlnl ++ "<div class='wp-block-group'><b>x</b></div>"
         ++ nlnl ++ "MD(<p>Bye</p>)" ++ nlnl
  /\ process_media_links (convert_content marked true body_group) "https://blog.example.org"
     = convert_content marked true body_group.
Proof.
  split; [reflexivity|].
  destruct (proj1 (proj2 (proj2 block_kept_verbatim)) marked "https://blog.example.org"
              true body_group "<p>Hello</p>"
              ["<div"; " class='"; "wp-block"; "-group'"; ">"; "<b>x</b>"; "</div>"]
              "<p>Bye</p>" eq_refl) as (_ & _ & _ & Hc & Hm).
  split; [exact Hc | exact (Hm eq_refl)].
Defined.

(** The block of the first body is not in the output character for
    character: its image reference has been rewritten, whatever the mode
    and the converter.  The paragraph of the second body is a surrounding
    segment, and in Markdown mode it goes through no converter: it holds
    the marker text. *)
Lemma block_rewritten_and_segment_kept_raw :
  re_split block_re body_code = [""; body_code; ""]
  /\ (forall handle : str -> str,
        process_media_links (convert_content handle false body_code)
          "https://blog.example.org"
        = nlnl ++ "<div class='wp-block-code'>!\[a\](x.png)</div>" ++ nlnl ++ nlnl)
  /\ contains body_code
       (nlnl ++ "<div class='wp-block-code'>!\[a\](x.png)</div>" ++ nlnl ++ nlnl)
     = false
  /\ re_split block_re body_paragraph
     = ["<p class='wp-block-paragraph'><b>Hi</b></p>";
        "<div class='wp-block-group'>x</div>"; ""]
  /\ (forall handle : str -> str,
        convert_content handle true body_paragraph
        = "<p class='wp-block-paragraph'><b>Hi</b></p>" ++ nlnl
            ++ "<div class='wp-block-group'>x</div>" ++ nlnl
            ++ strip (handle "") ++ nlnl).
Proof.
  repeat split.
Qed.

Lemma single_segment_roundtrip_example :
  re_split block_re "<p>Hello</p>" = ["<p>Hello</p>"]
  /\ convert_content marked true "<p>Hello</p>"
     = render_blocks marked true ["<p>Hello</p>"]
  /\ convert_content marked true "<p>Hello</p>" = strip (marked "<p>Hello</p>") ++ nlnl
  /\ convert_content marked false "<p>Hello</p>" = strip "<p>Hello</p>" ++ nlnl
  /\ (convert_content marked true "<p>Hello</p>" = marked "<p>Hello</p>"
      <-> marked "<p>Hello</p>" = strip (marked "<p>Hello</p>") ++ nlnl).
Proof.
  apply (single_segment_roundtrip marked true "<p>Hello</p>"). reflexivity.
Defined.

(** The converted content of a body without marker is not the
    transformation of the whole body.  The empty body holds no marker: with
    a converter that gives a single newline for it, the converted content
    is the blank line, two newlines.  With the converter that wraps its
    input, the converted content of a paragraph is the wrapped paragraph
    and a blank line, which the transformation of the paragraph does not
    end with. *)
Lemma whole_body_conversion_differs :
  contains "wp-block" "" = false
  /\ (forall handle : str -> str,
        handle "" = [nl] ->
        convert_content handle true "" = [nl; nl]
        /\ convert_content handle true "" <> handle "")
  /\ contains "wp-block" "<p>Hello</p>" = false
  /\ marked "<p>Hello</p>" = "MD(<p>Hello</p>)"
  /\ convert_content marked true "<p>Hello</p>" = "MD(<p>Hello</p>)" ++ [nl; nl].
Proof.
  split; [reflexivity|]. split; [|repeat split].
  intros handle H.
  assert (E : convert_content handle true "" = [nl; nl]).
  { change (convert_content handle true "") with (strip (handle "") ++ nlnl).
    now rewrite H. }
  split; [exact E|]. rewrite E, H. discriminate.
Qed.

(** *** Empty and blank segments *)

(** Splitting an empty body gives one segment, not none. *)
Lemma empty_body_has_a_segment :
  re_split block_re "" = [""] /\ length (re_split block_re "") = 1%nat.
Proof. split; reflexivity. Qed.

Lemma is_block_facts b :
  is_block b -> contains "wp-block" b = true /\ strip b = b.
Proof.
  intros Hb. destruct (is_block_found "" b "" eq_refl Hb) as (caps & Hs & <-).
  apply search_sound in Hs. destruct Hs as (s' & _ & Hm).
  apply block_match_facts in Hm. now destruct Hm as (? & ? & _).
Qed.

(** C6, as the code has it.  Splitting an empty body gives one segment,
    the empty one, and it is rendered like any other.  The segments
    before, between and after two structured blocks are kept when they
    are empty or white space only: each is rendered, and followed by its
    blank line. *)
Theorem empty_and_blank_segments_kept :
  re_split block_re "" = [""]
  /\ (forall (handle : str -> str) (use_markdown : bool),
        convert_content handle use_markdown "" = render_block handle use_markdown "")
  /\ (forall b1 ws b2 : str,
        is_block b1 -> is_block b2 -> forallb is_space ws = true ->
        re_split block_re (b1 ++ ws ++ b2) = [""; b1; ws; b2; ""]
        /\ forall handle : str -> str,
             convert_content handle true (b1 ++ ws ++ b2)
             = strip (handle "") ++ nlnl ++ b1 ++ nlnl ++ strip (handle ws) ++ nlnl
                 ++ b2 ++ nlnl ++ strip (handle "") ++ nlnl).
Proof.
  split; [reflexivity|]. split; [reflexivity|].
  intros b1 ws b2 H1 H2 Hws.
  assert (Hsplit : re_split block_re (b1 ++ ws ++ b2) = [""; b1; ws; b2; ""]).
  { destruct (is_block_found "" b1 (ws ++ b2) eq_refl H1) as (caps1 & Hs1 & <-).
    cbn [app] in Hs1. rewrite (re_split_block _ _ _ _ Hs1).
    assert (Hdiv : contains "<div" ws = false)
      by exact (space_contains "<div" ws "<" "div" eq_refl eq_refl Hws).
    destruct (is_block_found ws b2 "" Hdiv H2) as (caps2 & Hs2 & <-).
    rewrite app_nil_r in Hs2. rewrite (re_split_block _ _ _ _ Hs2).
    reflexivity. }
  split; [exact Hsplit|].
  intros handle. unfold convert_content. rewrite Hsplit.
  rewrite !render_blocks_cons.
  destruct (is_block_facts _ H1) as [M1 S1]. destruct (is_block_facts _ H2) as [M2 S2].
  destruct (render_space handle ws Hws) as [Rws _].
  rewrite Rws. unfold render_block. rewrite M1, M2, S1, S2.
  cbn [contains search match_here strip_prefix]. unfold render_blocks. cbn [fold_left].
  now rewrite <- !app_assoc.
Qed.

Lemma empty_and_blank_segments_example :
  re_split block_re
    ("<div class='wp-block-a'>x</div>" ++ [" "%char; nl; " "%char]
       ++ "<div class='wp-block-b'>y</div>")
  = [""; "<div class='wp-block-a'>x</div>"; [" "%char; nl; " "%char];
     "<div class='wp-block-b'>y</div>"; ""].
Proof.
  apply (proj2 (proj2 empty_and_blank_segments_kept)
           "<div class='wp-block-a'>x</div>" [" "%char; nl; " "%char]
           "<div class='wp-block-b'>y</div>").
  - exists " class='wp-block-a'", "x". repeat split.
  - exists " class='wp-block-b'", "y". repeat split.
  - reflexivity.
Defined.

Lemma map_term_ids_to_names_example :
  resolved_name [(JNum 5, {| term_id := JNum 5; term_name := JStr "News" |})] 5
  = JStr "News"
  /\ resolved_name [(JNum 5, {| term_id := JNum 5; term_name := JStr "News" |})] 99
     = JStr "Unknown (ID: 99)".
Proof.
  split.
  - apply (proj1 (proj2 map_term_ids_to_names_spec)
             [(JNum 5, {| term_id := JNum 5; term_name := JStr "News" |})] 5
             {| term_id := JNum 5; term_name := JStr "News" |}).
    reflexivity.
  - apply (proj1 (proj2 (proj2 map_term_ids_to_names_spec))
             [(JNum 5, {| term_id := JNum 5; term_name := JStr "News" |})] 99).
    reflexivity.
Defined.


(** * Further properties of the code *)

(** ** The fetcher *)

Lemma fetch_loop_get_raises http domain_url endpoint per_page fuel page data log e :
  http (page_url domain_url endpoint per_page page) = GetRaises e ->
  fetch_loop http (S fuel) domain_url endpoint per_page page data log
  = (Raise e, log ++ [page_url domain_url endpoint per_page page]).
Proof. intros Hget. cbn [fetch_loop]. now rewrite Hget. Qed.

Lemma fetch_loop_unusable_body http domain_url endpoint per_page fuel page data log j :
  http (page_url domain_url endpoint per_page page) = ok_response j ->
  truthy j = false \/ py_iter j = None ->
  fetch_loop http (S fuel) domain_url endpoint per_page page data log
  = (Ok data, log ++ [page_url domain_url endpoint per_page page]).
Proof.
  intros Hget H. cbn [fetch_loop]. rewrite Hget.
  cbn [ok_response]. rewrite ok_status. cbn [json_body].
  destruct (truthy j); cbn [negb]; [|reflexivity].
  destruct H as [H|H]; [discriminate|]. now rewrite H.
Qed.

(** X1. When [requests.get] raises for page n (no connection, time-out),
    the exception leaves the fetcher: the request is outside the [try],
    and the items of the pages 1 to n-1 are not returned. *)
Theorem fetch_raises_when_request_raises :
  forall (http : str -> get_result) (domain_url endpoint : str) (per_page : Z)
         (pages : list (list json)) (e : exn) (fuel : nat),
    serves_full_pages http domain_url endpoint per_page 1 pages ->
    http (page_url domain_url endpoint per_page (1 + Z.of_nat (length pages)))
      = GetRaises e ->
    (length pages < fuel)%nat ->
    fetch_wordpress_data http fuel domain_url endpoint per_page
    = (Raise e, page_urls domain_url endpoint per_page 1 (S (length pages))).
Proof.
  intros http domain_url endpoint per_page pages e fuel Hfull Hget Hfuel.
  unfold fetch_wordpress_data.
  replace fuel with (length pages + S (fuel - S (length pages)))%nat by lia.
  rewrite fetch_loop_full_pages by assumption.
  rewrite (fetch_loop_get_raises _ _ _ _ _ _ _ _ _ Hget).
  now rewrite page_urls_snoc.
Qed.

Lemma fetch_raises_when_request_raises_example :
  fetch_wordpress_data site_drop 5 "https://blog.example.org" "posts" 2
  = (Raise ConnectionError, page_urls "https://blog.example.org" "posts" 2 1 2).
Proof.
  apply (fetch_raises_when_request_raises site_drop "https://blog.example.org" "posts" 2
           [items_from 1 2] ConnectionError 5).
  - intros i l Hi. destruct i as [|i]; simpl in Hi.
    + injection Hi as <-. split; [reflexivity|]. split; [discriminate|].
      vm_compute. discriminate.
    + destruct i; discriminate.
  - reflexivity.
  - simpl. lia.
Defined.

(** X2. A page whose body decodes to a value that is false ([null], 0,
    [false], an empty string, list or object) or that cannot be iterated
    (a number, [true]) ends the pagination without an exception: the
    fetcher returns the items of the pages before it. *)
Theorem fetch_stops_at_unusable_body :
  forall (http : str -> get_result) (domain_url endpoint : str) (per_page : Z)
         (pages : list (list json)) (j : json) (fuel : nat),
    serves_full_pages http domain_url endpoint per_page 1 pages ->
    http (page_url domain_url endpoint per_page (1 + Z.of_nat (length pages)))
      = ok_response j ->
    truthy j = false \/ py_iter j = None ->
    (length pages < fuel)%nat ->
    fetch_wordpress_data http fuel domain_url endpoint per_page
    = (Ok (concat pages), page_urls domain_url endpoint per_page 1 (S (length pages))).
Proof.
  intros http domain_url endpoint per_page pages j fuel Hfull Hget Hj Hfuel.
  unfold fetch_wordpress_data.
  replace fuel with (length pages + S (fuel - S (length pages)))%nat by lia.
  rewrite fetch_loop_full_pages by assumption.
  rewrite (fetch_loop_unusable_body _ _ _ _ _ _ _ _ _ Hget Hj).
  now rewrite page_urls_snoc.
Qed.

Lemma fetch_stops_at_unusable_body_example :
  fetch_wordpress_data site_number 5 "https://blog.example.org" "posts" 2
  = (Ok (concat [items_from 1 2]),
     page_urls "https://blog.example.org" "posts" 2 1 2).
Proof.
  apply (fetch_stops_at_unusable_body site_number "https://blog.example.org" "posts" 2
           [items_from 1 2] (JNum 7) 5).
  - intros i l Hi. destruct i as [|i]; simpl in Hi.
    + injection Hi as <-. split; [reflexivity|]. split; [discriminate|].
      vm_compute. discriminate.
    + destruct i; discriminate.
  - reflexivity.
  - right. reflexivity.
  - simpl. lia.
Defined.

(** X3. The fetcher has no page limit: as long as every page is full it
    asks for the next one.  After n full pages it has made n requests and
    has not returned. *)
Theorem fetch_goes_on_over_full_pages :
  forall (http : str -> get_result) (domain_url endpoint : str) (per_page : Z)
         (pages : list (list json)),
    serves_full_pages http domain_url endpoint per_page 1 pages ->
    fetch_wordpress_data http (length pages) domain_url endpoint per_page
    = (Diverge, page_urls domain_url endpoint per_page 1 (length pages)).
Proof.
  intros http domain_url endpoint per_page pages Hfull.
  unfold fetch_wordpress_data.
  replace (length pages) with (length pages + 0)%nat at 1 by lia.
  now rewrite fetch_loop_full_pages.
Qed.

Lemma fetch_goes_on_over_full_pages_example :
  fetch_wordpress_data site_242 2 "https://blog.example.org" "posts" 100
  = (Diverge, page_urls "https://blog.example.org" "posts" 100 1 2).
Proof.
  apply (fetch_goes_on_over_full_pages site_242 "https://blog.example.org" "posts" 100
           [items_from 1 100; items_from 101 100]).
  intros i l Hi. destruct i as [|[|i]]; simpl in Hi.
  - injection Hi as <-. split; [reflexivity|]. split; [discriminate|].
    vm_compute. discriminate.
  - injection Hi as <-. split; [reflexivity|]. split; [discriminate|].
    vm_compute. discriminate.
  - destruct i; discriminate.
Defined.

(** ** Tables built from fetched records *)

(** Assigning to a key that the table does not hold appends the entry. *)
Lemma set_fresh {V} (k : json) (v : V) (d : list (json * V)) :
  (forall k', In k' (Dict.keys d) -> key_eqb k k' = false) ->
  Dict.set key_eqb k v d = d ++ [(k, v)].
Proof.
  induction d as [|[k1 v1] d IH]; intros H; [reflexivity|].
  cbn [Dict.set app]. rewrite (H k1) by now left.
  rewrite IH; [reflexivity|]. intros k' Hin. apply H. now right.
Qed.

Lemma fresh_id {A} (f : Z * json -> json * A) (acc : list (Z * json)) (i : Z) :
  (forall p, fst (f p) = JNum (fst p)) ->
  ~ In i (map fst acc) ->
  forall k', In k' (Dict.keys (map f acc)) -> key_eqb (JNum i) k' = false.
Proof.
  intros Hf Hout k' Hin. unfold Dict.keys in Hin. rewrite map_map in Hin.
  apply in_map_iff in Hin. destruct Hin as (p & <- & Hp). rewrite Hf.
  cbn [key_eqb]. apply Z.eqb_neq. intros ->. apply Hout. now apply in_map.
Qed.

Lemma term_entry_named t i n :
  is_named_record t i n -> term_entry t = Ok (term_of (i, n)).
Proof.
  intros (d & -> & Hi & Hn). unfold term_entry, sget in *. now rewrite Hi, Hn.
Qed.

Lemma author_entry_named t i n :
  is_named_record t i n -> author_entry t = Ok (author_of (i, n)).
Proof.
  intros (d & -> & Hi & Hn). unfold author_entry, sget in *. now rewrite Hi, Hn.
Qed.

(** The table of records with distinct integer ids holds one entry per
    record, in the order of the records. *)
Lemma build_terms_named terms recs :
  Forall2 (fun t p => is_named_record t (fst p) (snd p)) terms recs ->
  forall acc, NoDup (map fst (acc ++ recs)) ->
  build_terms terms (map term_of acc) = Ok (map term_of (acc ++ recs)).
Proof.
  induction 1 as [|t [i n] terms recs Ht _ IH]; intros acc Hnd.
  - now rewrite app_nil_r.
  - cbn [build_terms]. rewrite (term_entry_named _ _ _ Ht). cbn [bind fst snd term_of].
    rewrite set_fresh.
    + change [(JNum i, {| term_id := JNum i; term_name := n |})]
        with (map term_of [(i, n)]).
      rewrite <- map_app, IH; rewrite <- app_assoc; [reflexivity|exact Hnd].
    + apply (fresh_id term_of); [reflexivity|].
      rewrite map_app in Hnd. cbn [map fst] in Hnd.
      apply NoDup_remove_2 in Hnd. intros Hin. apply Hnd, in_or_app. now left.
Qed.

Lemma build_authors_named authors recs :
  Forall2 (fun t p => is_named_record t (fst p) (snd p)) authors recs ->
  forall acc, NoDup (map fst (acc ++ recs)) ->
  build_authors authors (map author_of acc) = Ok (map author_of (acc ++ recs)).
Proof.
  induction 1 as [|t [i n] authors recs Ht _ IH]; intros acc Hnd.
  - now rewrite app_nil_r.
  - cbn [build_authors]. rewrite (author_entry_named _ _ _ Ht).
    cbn [bind fst snd author_of].
    rewrite set_fresh.
    + change [(JNum i, n)] with (map author_of [(i, n)]).
      rewrite <- map_app, IH; rewrite <- app_assoc; [reflexivity|exact Hnd].
    + apply (fresh_id author_of); [reflexivity|].
      rewrite map_app in Hnd. cbn [map fst] in Hnd.
      apply NoDup_remove_2 in Hnd. intros Hin. apply Hnd, in_or_app. now left.
Qed.

(** Looking up the id of a record in the table gives the record's name. *)
Lemma get_named {A} (f : Z * json -> json * A) (recs : list (Z * json)) :
  (forall p, fst (f p) = JNum (fst p)) ->
  NoDup (map fst recs) ->
  forall p, In p recs -> Dict.get key_eqb (JNum (fst p)) (map f recs) = Some (snd (f p)).
Proof.
  intros Hf. induction recs as [|q recs IH]; intros Hnd p Hin; [easy|].
  cbn [map fst] in Hnd. inversion Hnd as [|? ? Hout Hnd']; subst.
  cbn [map Dict.get]. destruct (f q) as [k v] eqn:E.
  assert (Hk : k = JNum (fst q)) by (rewrite <- Hf, E; reflexivity). subst k.
  cbn [key_eqb]. destruct (Z.eqb_spec (fst p) (fst q)) as [Heq|Hne].
  - destruct Hin as [->|Hin]; [now rewrite E|].
    exfalso. apply Hout. rewrite <- Heq. now apply in_map.
  - destruct Hin as [->|Hin]; [contradiction|]. now apply IH.
Qed.

(** X4. When the fetcher returns records with distinct integer ids,
    [fetch_terms_by_taxonomy] returns the table with one term per record,
    in the order of the records, and resolving the ids of the records
    against that table gives back their names, in order. *)
Theorem fetched_terms_resolve :
  forall (http : str -> get_result) (fuel : nat) (domain_url taxonomy : str)
         (terms : list json) (recs : list (Z * json)),
    fetches http fuel domain_url taxonomy terms ->
    Forall2 (fun t p => is_named_record t (fst p) (snd p)) terms recs ->
    NoDup (map fst recs) ->
    fetch_terms_by_taxonomy http fuel domain_url taxonomy = Ok (map term_of recs)
    /\ map_term_ids_to_names (JArr (map JNum (map fst recs))) (map term_of recs)
       = Ok (map snd recs).
Proof.
  intros http fuel domain_url taxonomy terms recs Hfetch Hrecs Hnd.
  split.
  - unfold fetch_terms_by_taxonomy. unfold fetches in Hfetch. rewrite Hfetch.
    cbn [bind]. exact (build_terms_named _ _ Hrecs [] Hnd).
  - cbn [map_term_ids_to_names py_iter]. rewrite map_names_ints. f_equal.
    rewrite map_map. apply map_ext_in. intros [i n] Hin. cbn [fst snd].
    unfold resolved_name.
    pose proof (get_named term_of recs (fun _ => eq_refl) Hnd (i, n) Hin) as G.
    cbn [fst snd term_of] in G. now rewrite G.
Qed.

Lemma fetched_terms_resolve_example :
  fetch_terms_by_taxonomy site_small 1 "https://blog.example.org" "categories"
  = Ok (map term_of [(5, JStr "News"); (8, JStr "Travel")])
  /\ map_term_ids_to_names (JArr (map JNum (map fst [(5, JStr "News"); (8, JStr "Travel")])))
       (map term_of [(5, JStr "News"); (8, JStr "Travel")])
     = Ok (map snd [(5, JStr "News"); (8, JStr "Travel")]).
Proof.
  apply (fetched_terms_resolve site_small 1 "https://blog.example.org" "categories"
           [record 5 "News"; record 8 "Travel"]).
  - reflexivity.
  - repeat constructor; eexists; repeat split.
  - repeat constructor; simpl; intuition discriminate.
Defined.

Lemma build_terms_good good recs :
  Forall2 (fun t p => is_named_record t (fst p) (snd p)) good recs ->
  forall acc l, exists acc', build_terms (good ++ l) acc = build_terms l acc'.
Proof.
  induction 1 as [|t [i n] good recs Ht _ IH]; intros acc l.
  - now exists acc.
  - cbn [app build_terms]. rewrite (term_entry_named _ _ _ Ht). cbn [bind]. apply IH.
Qed.

(** X5. A fetched record that is an object without [id] or without
    [name] makes [fetch_terms_by_taxonomy] raise [KeyError]: the terms
    fetched before and after it are lost with it. *)
Theorem term_without_key_raises :
  forall (http : str -> get_result) (fuel : nat) (domain_url taxonomy : str)
         (good : list json) (recs : list (Z * json)) (d : list (str * json))
         (rest : list json),
    fetches http fuel domain_url taxonomy (good ++ JObj d :: rest) ->
    Forall2 (fun t p => is_named_record t (fst p) (snd p)) good recs ->
    sget "id" d = None \/ sget "name" d = None ->
    fetch_terms_by_taxonomy http fuel domain_url taxonomy = Raise KeyError.
Proof.
  intros http fuel domain_url taxonomy good recs d rest Hfetch Hgood Hd.
  unfold fetch_terms_by_taxonomy. unfold fetches in Hfetch. rewrite Hfetch. cbn [bind].
  destruct (build_terms_good _ _ Hgood [] (JObj d :: rest)) as [acc' ->].
  cbn [build_terms term_entry].
  destruct (sget "id" d); [|reflexivity].
  destruct Hd as [Hd|Hd]; [discriminate|]. now rewrite Hd.
Qed.

Lemma term_without_key_raises_example :
  fetch_terms_by_taxonomy site_small 1 "https://blog.example.org" "genre"
  = Raise KeyError.
Proof.
  apply (term_without_key_raises site_small 1 "https://blog.example.org" "genre"
           [record 1 "Rock"] [(1, JStr "Rock")] [("name", JStr "Pop")]
           [record 3 "Jazz"]).
  - reflexivity.
  - repeat constructor; eexists; repeat split.
  - left. reflexivity.
Defined.

(** X6. When the fetcher returns user records with distinct integer ids,
    [save_authors] returns the table with one entry per user, in the
    order of the users, and the table gives the name of each user under
    the user's id. *)
Theorem saved_authors_table :
  forall (http : str -> get_result) (fuel : nat) (domain_url : str)
         (users : list json) (recs : list (Z * json)),
    fetches http fuel domain_url "users" users ->
    Forall2 (fun t p => is_named_record t (fst p) (snd p)) users recs ->
    NoDup (map fst recs) ->
    save_authors http fuel domain_url = Ok (map author_of recs)
    /\ forall i n, In (i, n) recs ->
         Dict.get key_eqb (JNum i) (map author_of recs) = Some n.
Proof.
  intros http fuel domain_url users recs Hfetch Hrecs Hnd. split.
  - unfold save_authors. unfold fetches in Hfetch. rewrite Hfetch. cbn [bind].
    exact (build_authors_named _ _ Hrecs [] Hnd).
  - intros i n Hin.
    exact (get_named author_of recs (fun _ => eq_refl) Hnd (i, n) Hin).
Qed.

Lemma saved_authors_table_example :
  save_authors site_small 1 "https://blog.example.org"
  = Ok (map author_of [(7, JStr "Alice")])
  /\ forall i n, In (i, n) [(7, JStr "Alice")] ->
       Dict.get key_eqb (JNum i) (map author_of [(7, JStr "Alice")]) = Some n.
Proof.
  apply (saved_authors_table site_small 1 "https://blog.example.org"
           [record 7 "Alice"]).
  - reflexivity.
  - repeat constructor; eexists; repeat split.
  - repeat constructor; simpl; intuition discriminate.
Defined.

(** X7. When the first page of the tags is answered with an error status
    or with a body that is not JSON, [save_categories_and_tags] returns
    the categories with an empty table of tags: the fetcher has already
    swallowed the failure. *)
Theorem tags_failure_gives_no_tags :
  forall (http : str -> get_result) (fuel : nat) (domain_url : str)
         (categories : term_table) (r : response),
    fetch_terms_by_taxonomy http (S fuel) domain_url "categories" = Ok categories ->
    http (page_url domain_url "tags" 100 1) = Response r ->
    raises_for_status r = true \/ json_body r = None ->
    save_categories_and_tags http (S fuel) domain_url = Ok (categories, []).
Proof.
  intros http fuel domain_url categories r Hcat Hget Hfail.
  unfold save_categories_and_tags. rewrite Hcat. cbn [bind].
  now rewrite (fetch_terms_failed_is_empty _ _ _ _ _ Hget Hfail).
Qed.

Lemma tags_failure_gives_no_tags_example :
  save_categories_and_tags site_small 1 "https://blog.example.org"
  = Ok (map term_of [(5, JStr "News"); (8, JStr "Travel")], []).
Proof.
  apply (tags_failure_gives_no_tags site_small 0 "https://blog.example.org"
           (map term_of [(5, JStr "News"); (8, JStr "Travel")])
           {| status_code := 200; json_body := None |}).
  - reflexivity.
  - reflexivity.
  - right. reflexivity.
Defined.

(** ** Ids of any type *)

Lemma map_names_hashable terms l :
  forallb hashable l = true ->
  exists names, map_names terms l = Ok names /\ length names = length l.
Proof.
  induction l as [|i l IH]; intros H; [now exists []|].
  cbn [forallb] in H. apply andb_prop in H. destruct H as [Hi Hl].
  destruct (IH Hl) as (names & E & Hlen).
  cbn [map_names]. unfold term_name_of. rewrite Hi. cbn [bind]. rewrite E. cbn [bind].
  eexists. split; [reflexivity|]. cbn [length]. now rewrite Hlen.
Qed.

Lemma map_names_unhashable terms l :
  forallb hashable l = false -> map_names terms l = Raise TypeError.
Proof.
  induction l as [|i l IH]; intros H; [discriminate|].
  cbn [forallb] in H. cbn [map_names]. unfold term_name_of.
  destruct (hashable i); cbn [andb bind] in *; [|reflexivity].
  now rewrite (IH H).
Qed.

(** X8. For a list of ids of any JSON type, [map_term_ids_to_names]
    returns a list of the same length when every id can be a dictionary
    key, and raises [TypeError] when some id is a list or an object,
    whatever the table. *)
Theorem map_term_ids_to_names_any_ids :
  forall (terms : term_table) (ids : list json),
    (forallb hashable ids = true ->
     exists names,
       map_term_ids_to_names (JArr ids) terms = Ok names
       /\ length names = length ids)
    /\ (forallb hashable ids = false ->
        map_term_ids_to_names (JArr ids) terms = Raise TypeError).
Proof.
  intros terms ids. split; intros H.
  - now apply map_names_hashable.
  - now apply map_names_unhashable.
Qed.

Lemma map_term_ids_to_names_any_ids_example :
  map_term_ids_to_names (JArr [JNum 5; JArr [JNum 5]]) categories_hi = Raise TypeError.
Proof.
  apply (proj2 (map_term_ids_to_names_any_ids categories_hi [JNum 5; JArr [JNum 5]])).
  reflexivity.
Defined.

(** ** The custom taxonomies *)

Lemma add_key_In ks k x : In x (add_key ks k) -> In x ks \/ x = k.
Proof.
  unfold add_key. destruct (existsb (str_eqb k) ks); [now left|].
  intros H. apply in_app_or in H. destruct H as [H|[H|[]]]; auto.
Qed.

Lemma add_keys_In new : forall ks x, In x (add_keys ks new) -> In x ks \/ In x new.
Proof.
  unfold add_keys. induction new as [|k new IH]; intros ks x H; [now left|].
  cbn [fold_left] in H. apply IH in H. destruct H as [H|H]; [|right; now right].
  apply add_key_In in H. destruct H as [H| ->]; [now left|right; now left].
Qed.

Lemma In_add_keys new : forall ks x, In x new -> In x (add_keys ks new).
Proof.
  unfold add_keys. induction new as [|k new IH]; intros ks x H; [easy|].
  cbn [fold_left]. destruct H as [->|H]; [|now apply IH].
  apply (add_keys_incl new). unfold add_key.
  destruct (existsb (str_eqb x) ks) eqn:E.
  - apply existsb_exists in E. destruct E as (y & Hy & E).
    apply str_eqb_eq in E. now subst.
  - apply in_or_app. right. now left.
Qed.

(** The taxonomies of the table were asked for. *)
Lemma fetch_each_taxonomy_keys http fuel domain_url names : forall acc tbl,
  fetch_each_taxonomy http fuel domain_url names acc = Ok tbl ->
  forall k, In k (Dict.keys tbl) -> In k (Dict.keys acc) \/ In k names.
Proof.
  induction names as [|name names IH]; intros acc tbl H k Hk.
  - cbn in H. injection H as <-. now left.
  - cbn [fetch_each_taxonomy] in H.
    destruct (fetch_terms_by_taxonomy http fuel domain_url name) as [terms|e|].
    + destruct (IH _ _ H k Hk) as [Hin|Hin]; [|right; now right].
      rewrite keys_set in Hin. apply add_key_In in Hin.
      destruct Hin as [Hin| ->]; [now left|right; now left].
    + destruct e; try discriminate.
      destruct (IH _ _ H k Hk) as [Hin|Hin]; [now left|right; now right].
    + discriminate.
Qed.

(** The names that [fetch_custom_taxonomies] asks for: the keys of the
    listing that are not built in. *)
Lemma custom_names (listing : list (str * json)) (name : str) :
  In name (Dict.keys (Dict.update str_eqb []
             (filter (fun kv => negb (is_builtin (fst kv))) listing)))
  <-> In name (Dict.keys listing) /\ is_builtin name = false.
Proof.
  rewrite keys_update. cbn [Dict.keys map]. split.
  - intros H. apply add_keys_In in H. destruct H as [[]|H].
    unfold Dict.keys in *. apply in_map_iff in H. destruct H as ([k v] & <- & H).
    apply filter_In in H. destruct H as [H Hb]. cbn [fst] in *. split.
    + now apply (in_map fst) in H.
    + now destruct (is_builtin k).
  - intros [H Hb]. apply In_add_keys. unfold Dict.keys in *.
    apply in_map_iff in H. destruct H as ([k v] & <- & H). cbn [fst] in Hb.
    apply in_map_iff. exists (k, v). split; [reflexivity|].
    apply filter_In. split; [assumption|]. cbn [fst]. now rewrite Hb.
Qed.

(** X9. Every taxonomy of the table that [fetch_custom_taxonomies]
    returns is a key of the listing that the site gave, and is neither
    category nor post_tag. *)
Theorem custom_taxonomies_are_listed :
  forall (http : str -> get_result) (fuel : nat) (domain_url : str)
         (tbl : taxonomy_table) (name : str),
    fetch_custom_taxonomies http fuel domain_url = Ok tbl ->
    In name (Dict.keys tbl) ->
    name <> "category" /\ name <> "post_tag"
    /\ exists r listing,
         http (domain_url ++ "/wp-json/wp/v2/taxonomies") = Response r
         /\ json_body r = Some (JObj listing)
         /\ In name (Dict.keys listing).
Proof.
  intros http fuel domain_url tbl name H Hin.
  unfold fetch_custom_taxonomies in H.
  destruct (http (domain_url ++ "/wp-json/wp/v2/taxonomies")) as [e|r] eqn:Hget;
    [discriminate|].
  destruct (raises_for_status r); [injection H as <-; destruct Hin|].
  destruct (json_body r) as [[| | | | |listing]|] eqn:Hbody;
    try (injection H as <-; destruct Hin).
  destruct (fetch_each_taxonomy http fuel domain_url _ []) as [t|e|] eqn:E;
    try discriminate; injection H as <-; [|destruct Hin].
  destruct (fetch_each_taxonomy_keys _ _ _ _ _ _ E name Hin) as [[]|Hname].
  apply custom_names in Hname. destruct Hname as [Hl Hb].
  unfold is_builtin in Hb. apply orb_false_elim in Hb. destruct Hb as [Hc Hp].
  split; [now apply str_eqb_neq'|]. split; [now apply str_eqb_neq'|].
  now exists r, listing.
Qed.

Lemma custom_taxonomies_are_listed_example :
  "mood" <> "category" /\ "mood" <> "post_tag"
  /\ exists r listing,
       site_taxonomies ("https://blog.example.org" ++ "/wp-json/wp/v2/taxonomies")
       = Response r
       /\ json_body r = Some (JObj listing)
       /\ In "mood" (Dict.keys listing).
Proof.
  apply (custom_taxonomies_are_listed site_taxonomies 2 "https://blog.example.org"
           [("genre", []);
            ("mood", [(JNum 1, {| term_id := JNum 1; term_name := JStr "Calm" |})])]
           "mood").
  - vm_compute. reflexivity.
  - right. left. reflexivity.
Defined.

Lemma fetch_each_taxonomy_raises http fuel domain_url names : forall acc name e,
  In name names ->
  fetch_terms_by_taxonomy http fuel domain_url name = Raise e -> e <> HTTPError ->
  (forall n, In n names -> fetch_terms_by_taxonomy http fuel domain_url n <> Diverge) ->
  exists e', fetch_each_taxonomy http fuel domain_url names acc = Raise e'.
Proof.
  induction names as [|n names IH]; intros acc name e Hin He Hne Hdiv; [easy|].
  cbn [fetch_each_taxonomy].
  assert (Htail : fetch_terms_by_taxonomy http fuel domain_url n <> Raise e ->
                  In name names).
  { intros Hn. destruct Hin as [->|Hin]; [contradiction|assumption]. }
  assert (Hdiv' : forall m, In m names ->
                  fetch_terms_by_taxonomy http fuel domain_url m <> Diverge)
    by (intros m Hm; apply Hdiv; now right).
  destruct (fetch_terms_by_taxonomy http fuel domain_url n) as [terms|e1|] eqn:E.
  - apply (IH _ name e); auto. apply Htail. discriminate.
  - destruct e1; try (eexists; reflexivity).
    apply (IH _ name e); auto. apply Htail. congruence.
  - exfalso. apply (Hdiv n); [now left|assumption].
Qed.

(** X10. When the fetch of the terms of one custom taxonomy raises
    anything but an [HTTPError] (a record without id, a request that finds
    no server), [fetch_custom_taxonomies] returns the empty table: the
    terms of the other taxonomies are lost with it. *)
Theorem one_raising_taxonomy_empties_the_table :
  forall (http : str -> get_result) (fuel : nat) (domain_url : str)
         (listing : list (str * json)) (name : str) (e : exn),
    http (domain_url ++ "/wp-json/wp/v2/taxonomies") = ok_response (JObj listing) ->
    In name (Dict.keys listing) -> is_builtin name = false ->
    fetch_terms_by_taxonomy http fuel domain_url name = Raise e -> e <> HTTPError ->
    (forall n, In n (Dict.keys listing) ->
       fetch_terms_by_taxonomy http fuel domain_url n <> Diverge) ->
    fetch_custom_taxonomies http fuel domain_url = Ok [].
Proof.
  intros http fuel domain_url listing name e Hget Hin Hb He Hne Hdiv.
  unfold fetch_custom_taxonomies. rewrite Hget.
  cbn [ok_response]. rewrite ok_status. cbn [json_body].
  destruct (fetch_each_taxonomy_raises http fuel domain_url
              (Dict.keys (Dict.update str_eqb []
                 (filter (fun kv => negb (is_builtin (fst kv))) listing)))
              [] name e) as [e' ->]; auto.
  - now apply custom_names.
  - intros n Hn. apply Hdiv. now apply custom_names in Hn.
Qed.

Lemma one_raising_taxonomy_empties_the_table_example :
  fetch_custom_taxonomies site_small 1 "https://blog.example.org" = Ok [].
Proof.
  apply (one_raising_taxonomy_empties_the_table site_small 1 "https://blog.example.org"
           [("category", JObj []); ("series", JObj []); ("genre", JObj [])]
           "genre" KeyError).
  - reflexivity.
  - right. right. left. reflexivity.
  - reflexivity.
  - reflexivity.
  - discriminate.
  - intros n [<-|[<-|[<-|[]]]]; vm_compute; discriminate.
Defined.

(** ** Splitting and rendering *)

(** No match starts before the one that [search] returns. *)
Lemma search_leftmost (re : regex) : forall s pre caps rest,
  search re s = Some (pre, caps, rest) ->
  forall a b, pre = a ++ b -> b <> [] -> match_here re (b ++ concat caps ++ rest) = None.
Proof.
  induction s as [|c s IH]; intros pre caps rest H a b Hpre Hb; cbn [search] in H.
  - destruct (match_here re []) as [[? ?]|]; [|discriminate].
    injection H as <- <- <-. now destruct a, b.
  - destruct (match_here re (c :: s)) as [[caps' rest']|] eqn:E.
    + injection H as <- <- <-. now destruct a, b.
    + destruct (search re s) as [[[pre' caps'] rest']|] eqn:E'; [|discriminate].
      injection H as <- <- <-.
      pose proof (search_decompose _ _ _ _ _ E') as Hs.
      destruct a as [|c' a]; cbn [app] in Hpre.
      * subst b. cbn [app]. now rewrite <- Hs.
      * injection Hpre as <- ->. now apply (IH _ _ _ eq_refl a b).
Qed.

(** A pattern that matches a text matches it with more text after it. *)
Lemma match_here_extends (re : regex) s caps rest tail :
  match_here re s = Some (caps, rest) -> match_here re (s ++ tail) <> None.
Proof.
  intros H. apply match_here_sound in H. destruct H as [-> HF].
  rewrite <- app_assoc. now apply match_here_complete.
Qed.

(** The text before the first block of a body holds no block. *)
Lemma search_before_block s pre caps rest :
  search block_re s = Some (pre, caps, rest) -> search block_re pre = None.
Proof.
  intros H. destruct (search block_re pre) as [[[p caps'] r]|] eqn:E; [|reflexivity].
  exfalso.
  apply search_sound in E. destruct E as (s' & Hs' & Hm).
  assert (Hne : s' <> []).
  { intros ->. apply block_match_facts in Hm. destruct Hm as (_ & _ & Hl).
    simpl in Hl. lia. }
  apply (match_here_extends _ _ _ _ (concat caps ++ rest)) in Hm. apply Hm.
  exact (search_leftmost _ _ _ _ _ H p s' Hs' Hne).
Qed.

Lemma re_split_cases s :
  (search block_re s = None /\ re_split block_re s = [s])
  \/ exists pre caps rest,
       search block_re s = Some (pre, caps, rest)
       /\ re_split block_re s = pre :: concat caps :: re_split block_re rest
       /\ (length rest < length s)%nat.
Proof.
  destruct (search block_re s) as [[[pre caps] rest]|] eqn:E.
  - right. exists pre, caps, rest. split; [reflexivity|].
    split; [now apply re_split_block|].
    apply search_sound in E. destruct E as (s' & -> & Hm).
    apply block_match_facts in Hm. destruct Hm as (_ & _ & Hl).
    rewrite length_app. lia.
  - left. split; [reflexivity|now apply re_split_no_block].
Qed.

(** X11. Splitting loses nothing and keeps the order: the segments of a
    body, joined, are the body.  They alternate: a segment that holds no
    block, then a block, which holds the marker, and so on, and the last
    segment holds no block. *)
Theorem split_is_lossless :
  forall body : str,
    concat (re_split block_re body) = body
    /\ alternating (re_split block_re body).
Proof.
  intros body.
  assert (G : forall n s, (length s <= n)%nat ->
              concat (re_split block_re s) = s /\ alternating (re_split block_re s)).
  { induction n as [|n IH]; intros s Hn;
      destruct (re_split_cases s) as [[E ->]|(pre & caps & rest & E & -> & Hl)];
      try (split; [cbn; now rewrite app_nil_r | now constructor]);
      try lia.
    destruct (IH rest) as [Hc Ha]; [lia|].
    split.
    - cbn [concat]. rewrite Hc. symmetry. now apply (search_decompose block_re).
    - constructor; [now apply (search_before_block s pre caps rest)| |assumption].
      apply search_sound in E. destruct E as (s' & _ & Hm).
      now apply block_match_facts in Hm. }
  now apply (G (length body)).
Qed.

(** X12. Without Markdown mode the converter is not used: the converted
    content is the same for every converter, each segment trimmed and
    followed by a blank line. *)
Theorem raw_mode_ignores_converter :
  forall (handle1 handle2 : str -> str) (body : str),
    convert_content handle1 false body = convert_content handle2 false body
    /\ convert_content handle1 false body
       = concat (map (fun segment => strip segment ++ nlnl) (re_split block_re body)).
Proof.
  intros handle1 handle2 body.
  assert (G : forall handle,
              convert_content handle false body
              = concat (map (fun segment => strip segment ++ nlnl)
                            (re_split block_re body))).
  { intros handle. rewrite render_blocks_concat. f_equal. apply map_ext.
    intros b. unfold render_block. now destruct (contains "wp-block" b). }
  split; [now rewrite !G | apply G].
Qed.

Lemma split_segments_nonempty body :
  exists first more, re_split block_re body = first :: more.
Proof.
  destruct (re_split_cases body) as [[_ ->]|(pre & caps & rest & _ & -> & _)];
    eexists; eexists; reflexivity.
Qed.

(** X13. The converted content is never empty: whatever the body, the
    mode and the converter, it ends with a blank line. *)
Theorem converted_content_ends_with_blank_line :
  forall (handle : str -> str) (use_markdown : bool) (body : str),
    exists text, convert_content handle use_markdown body = text ++ nlnl.
Proof.
  intros handle use_markdown body. rewrite render_blocks_concat.
  destruct (split_segments_nonempty body) as (first & more & ->).
  assert (G : forall blocks b,
              exists text,
                concat (map (render_block handle use_markdown) (b :: blocks))
                = text ++ nlnl).
  { induction blocks as [|b' blocks IH]; intros b.
    - cbn [map concat]. rewrite app_nil_r. unfold render_block.
      destruct (contains "wp-block" b); [eexists; reflexivity|].
      destruct use_markdown; eexists; reflexivity.
    - destruct (IH b') as [text E]. cbn [map concat] in E |- *. rewrite E.
      eexists. now rewrite app_assoc. }
  apply G.
Qed.

(** ** Rewriting the media links *)

Lemma match_lit_app l re s :
  match_here (Lit l :: re) (l ++ s) = push l (match_here re s).
Proof. cbn [match_here]. now rewrite strip_prefix_app. Qed.

(** A literal does not match a text that starts with another character. *)
Lemma match_lit_other c l re ch s :
  Ascii.eqb ch c = false -> match_here (Lit (c :: l) :: re) (ch :: s) = None.
Proof.
  intros H. cbn [match_here strip_prefix].
  rewrite Ascii.eqb_sym, H. reflexivity.
Qed.

(** A lazy star takes the shortest run after which the rest of the
    pattern matches. *)
Lemma star_lazy_first cls k x s' r :
  forallb cls x = true -> k s' = Some r ->
  (forall a b, x = a ++ b -> b <> [] -> k (b ++ s') = None) ->
  star cls k false (x ++ s') = Some (x, r).
Proof.
  intros Hx Hk. induction x as [|c x IH]; intros Hfirst.
  - cbn [app]. destruct s' as [|c s']; cbn [star]; unfold stop.
    + now rewrite Hk.
    + destruct (cls c); now rewrite Hk.
  - cbn [forallb] in Hx. apply andb_prop in Hx. destruct Hx as [Hc Hx].
    cbn [app star]. rewrite Hc. unfold stop.
    assert (H0 : k (c :: x ++ s') = None)
      by (apply (Hfirst [] (c :: x) eq_refl); discriminate).
    rewrite H0. unfold take.
    rewrite IH; [reflexivity|assumption|].
    intros a b -> Hb. now apply (Hfirst (c :: a) b).
Qed.

Lemma suffix_starts_with (p : ascii -> bool) (x a b : str) :
  forallb p x = true -> x = a ++ b -> b <> [] ->
  exists ch b', b = ch :: b' /\ p ch = true.
Proof.
  intros Hx -> Hb. rewrite forallb_app in Hx. apply andb_prop in Hx.
  destruct Hx as [_ Hx]. destruct b as [|ch b']; [congruence|].
  cbn [forallb] in Hx. apply andb_prop in Hx. now exists ch, b'.
Qed.

Lemma match_one_cons cls re c s :
  cls c = true -> match_here (One cls :: re) (c :: s) = push [c] (match_here re s).
Proof. intros H. cbn [match_here]. now rewrite H. Qed.

Lemma match_star_lazy cls re x s' caps rest :
  forallb cls x = true -> match_here re s' = Some (caps, rest) ->
  (forall a b, x = a ++ b -> b <> [] -> match_here re (b ++ s') = None) ->
  match_here (Star false cls :: re) (x ++ s') = Some (x :: caps, rest).
Proof.
  intros Hx Hk Hfirst. cbn [match_here].
  now rewrite (star_lazy_first cls (match_here re) x s' (caps, rest)).
Qed.

Lemma forallb_weaken (p q : ascii -> bool) (x : str) :
  (forall ch, p ch = true -> q ch = true) -> forallb p x = true -> forallb q x = true.
Proof.
  intros Hpq H. apply forallb_forall. intros ch Hin.
  apply Hpq. now apply (proj1 (forallb_forall p x) H).
Qed.

Lemma alt_char_not_nl ch : alt_char ch = true -> not_nl ch = true.
Proof. unfold alt_char. intros H. now apply andb_prop in H. Qed.

Lemma path_char_not_nl ch : path_char ch = true -> not_nl ch = true.
Proof. unfold path_char. intros H. now apply andb_prop in H. Qed.

(** The pattern matches an image reference under the uploads of
    [example], any character [c] standing where the pattern has its dot,
    with the alternative text as group 1 and the path as group 3. *)
Lemma media_match alt c path rest :
  forallb alt_char alt = true -> not_nl c = true -> forallb path_char path = true ->
  match_here media_re
    ("![" ++ alt ++ "](" ++ "https://example" ++ c :: "com/wp-content/uploads/"
       ++ path ++ ")" ++ rest)
  = Some (["!["; alt; "]("; "https://example"; [c]; "com/wp-content/uploads/"; path; ")"],
          rest).
Proof.
  intros Halt Hc Hpath. unfold media_re. rewrite match_lit_app.
  rewrite (match_star_lazy not_nl _ alt _
             ["]("; "https://example"; [c]; "com/wp-content/uploads/"; path; ")"] rest).
  - reflexivity.
  - exact (forallb_weaken _ _ _ alt_char_not_nl Halt).
  - rewrite !match_lit_app, (match_one_cons _ _ _ _ Hc), match_lit_app.
    rewrite (match_star_lazy not_nl _ path _ [")"] rest).
    + reflexivity.
    + exact (forallb_weaken _ _ _ path_char_not_nl Hpath).
    + change (")" ++ rest) with (")" ++ rest). now rewrite match_lit_app.
    + intros a b Hab Hb.
      destruct (suffix_starts_with _ _ _ _ Hpath Hab Hb) as (ch & b' & -> & Hch).
      unfold path_char in Hch. apply andb_prop in Hch. destruct Hch as [_ Hch].
      apply negb_true_iff in Hch. cbn [app]. now apply match_lit_other.
  - intros a b Hab Hb.
    destruct (suffix_starts_with _ _ _ _ Halt Hab Hb) as (ch & b' & -> & Hch).
    unfold alt_char in Hch. apply andb_prop in Hch. destruct Hch as [_ Hch].
    apply negb_true_iff in Hch. cbn [app]. now apply match_lit_other.
Qed.

Lemma media_match_shorter s caps rest :
  match_here media_re s = Some (caps, rest) -> (length rest < length s)%nat.
Proof.
  unfold media_re. intros H.
  apply match_lit in H. destruct H as (s1 & c1 & -> & -> & H).
  apply match_here_sound in H. destruct H as [-> _].
  rewrite !length_app. cbn [length]. lia.
Qed.

Lemma sub_from_fuel : forall fuel1 fuel2 s,
  (length s <= fuel1)%nat -> (length s <= fuel2)%nat ->
  sub_from fuel1 media_re media_repl s = sub_from fuel2 media_re media_repl s.
Proof.
  induction fuel1 as [|fuel1 IH]; intros fuel2 s H1 H2.
  - destruct s; [|simpl in H1; lia]. destruct fuel2; reflexivity.
  - destruct (search media_re s) as [[[pre caps] rest]|] eqn:E.
    + pose proof E as E'. apply search_sound in E'. destruct E' as (s' & -> & Hm).
      apply media_match_shorter in Hm. rewrite length_app in H1, H2.
      destruct fuel2 as [|fuel2]; [lia|].
      cbn [sub_from]. rewrite E. do 2 f_equal. apply IH; lia.
    + destruct fuel2; cbn [sub_from]; now rewrite E.
Qed.

(** One step of [re.sub] at the first reference of the content. *)
Lemma process_media_links_step s pre caps rest base :
  search media_re s = Some (pre, caps, rest) ->
  process_media_links s base
  = pre ++ media_repl caps ++ process_media_links rest base.
Proof.
  intros E. unfold process_media_links, re_sub.
  pose proof E as E'. apply search_sound in E'. destruct E' as (s' & Hs & Hm).
  apply media_match_shorter in Hm.
  assert (Hl : (length rest < length s)%nat) by (subst s; rewrite length_app; lia).
  destruct (length s) as [|n] eqn:En; [lia|].
  cbn [sub_from]. rewrite E. do 2 f_equal. apply sub_from_fuel; lia.
Qed.

(** C10, on the code.  The result of [process_media_links] does not
    depend on its [media_base_url] argument, and a content that nowhere
    holds the text [](https://example] is returned unchanged.  But the
    dot of [example.com] in the pattern is not escaped and stands for any
    character but a newline: the image reference under the host
    [example-com], which does not hold the prefix
    [https://example.com/wp-content/uploads/], is rewritten, and so is the
    reference under [example], any such character, [com]; what it is
    rewritten to is the template with its backslashes, [!\[alt\](path)]. *)
Theorem unescaped_dot_rewrites_other_hosts :
  (forall content base1 base2 : str,
      process_media_links content base1 = process_media_links content base2)
  /\ (forall content base : str,
        contains "](https://example" content = false ->
        process_media_links content base = content)
  /\ contains "https://example.com/wp-content/uploads/"
       "![a](https://example-com/wp-content/uploads/x.png)" = false
  /\ (forall base : str,
        process_media_links "![a](https://example-com/wp-content/uploads/x.png)" base
        = "!\[a\](x.png)")
  /\ (forall (alt : str) (c : ascii) (path base : str),
        forallb alt_char alt = true -> not_nl c = true ->
        forallb path_char path = true ->
        process_media_links
          ("![" ++ alt ++ "](https://example" ++ c :: "com/wp-content/uploads/"
             ++ path ++ ")") base
        = "!\[" ++ alt ++ "\](" ++ path ++ ")").
Proof.
  split; [reflexivity|]. split; [exact process_media_links_unchanged|].
  split; [reflexivity|]. split; [reflexivity|].
  intros alt c path base Halt Hc Hpath.
  pose proof (media_match alt c path [] Halt Hc Hpath) as Hm.
  rewrite (process_media_links_step _ []
             ["!["; alt; "]("; "https://example"; [c]; "com/wp-content/uploads/"; path; ")"]
             []).
  - unfold media_repl, group. cbn [skipn firstn concat].
    change (process_media_links [] base) with (@nil ascii).
    rewrite !app_nil_r. cbn [app]. now rewrite <- ?app_assoc.
  - change ("![" ++ alt ++ "](https://example" ++ c :: "com/wp-content/uploads/"
              ++ path ++ ")")
      with ("![" ++ alt ++ "](" ++ "https://example" ++ c :: "com/wp-content/uploads/"
              ++ path ++ ")" ++ []).
    exact (search_here _ _ _ _ Hm).
Qed.

Lemma unescaped_dot_rewrites_other_hosts_example :
  process_media_links "![logo](https://example_com/wp-content/uploads/2024/img.png)"
    "https://blog.example.org"
  = "!\[logo\](2024/img.png)"
  /\ process_media_links "![a](https://other.org/wp-content/uploads/x.png)"
       "https://other.org"
     = "![a](https://other.org/wp-content/uploads/x.png)".
Proof.
  split.
  - apply (proj2 (proj2 (proj2 (proj2 unescaped_dot_rewrites_other_hosts)))
             "logo" "_"%char "2024/img.png" "https://blog.example.org");
      reflexivity.
  - apply (proj1 (proj2 unescaped_dot_rewrites_other_hosts)
             "![a](https://other.org/wp-content/uploads/x.png)" "https://other.org").
    reflexivity.
Defined.

(** X14. An image reference to [https://example], any character but a
    newline, [com/wp-content/uploads/] and a path, after a text without
    exclamation mark, is rewritten to the template [!\[alt\](path)], with
    the backslashes of the template; the text before it is kept and the
    text after it is rewritten in the same way.  The alternative text
    holds no closing bracket, the path no closing parenthesis, neither a
    newline. *)
Theorem upload_reference_is_rewritten :
  forall (pre alt : str) (c : ascii) (path rest base : str),
    forallb not_bang pre = true ->
    forallb alt_char alt = true -> not_nl c = true -> forallb path_char path = true ->
    process_media_links
      (pre ++ "![" ++ alt ++ "](https://example" ++ c :: "com/wp-content/uploads/"
         ++ path ++ ")" ++ rest) base
    = pre ++ "!\[" ++ alt ++ "\](" ++ path ++ ")" ++ process_media_links rest base.
Proof.
  intros pre alt c path rest base Hpre Halt Hc Hpath.
  pose proof (media_match alt c path rest Halt Hc Hpath) as Hm.
  rewrite (process_media_links_step _ pre
             ["!["; alt; "]("; "https://example"; [c]; "com/wp-content/uploads/"; path; ")"]
             rest).
  - unfold media_repl, group. cbn [skipn firstn concat].
    now rewrite !app_nil_r, <- !app_assoc.
  - rewrite search_after_text.
    + change ("![" ++ alt ++ "](https://example" ++ c :: "com/wp-content/uploads/"
                ++ path ++ ")" ++ rest)
        with ("![" ++ alt ++ "](" ++ "https://example" ++ c :: "com/wp-content/uploads/"
                ++ path ++ ")" ++ rest).
      rewrite (search_here _ _ _ _ Hm). now rewrite app_nil_r.
    + intros a b Hab Hb.
      destruct (suffix_starts_with _ _ _ _ Hpre Hab Hb) as (ch & b' & -> & Hch).
      unfold not_bang in Hch. apply negb_true_iff in Hch.
      cbn [app]. unfold media_re. now apply match_lit_other.
Qed.

Lemma upload_reference_is_rewritten_example :
  process_media_links
    ("See " ++ "![" ++ "logo" ++ "](https://example" ++ "."%char
       :: "com/wp-content/uploads/" ++ "2024/img.png" ++ ")" ++ " here")
    "https://blog.example.org"
  = "See " ++ "!\[" ++ "logo" ++ "\](" ++ "2024/img.png" ++ ")"
      ++ process_media_links " here" "https://blog.example.org".
Proof.
  apply (upload_reference_is_rewritten "See " "logo" "."%char "2024/img.png" " here"
           "https://blog.example.org"); reflexivity.
Defined.

(** ** The frontmatter of a converted item *)

(** The loop over the custom taxonomies leaves alone the keys that are
    not fields of the item and the keys that are not custom taxonomies. *)
Lemma get_add_taxonomies post custom_taxonomies k : forall fm fm',
  add_taxonomies post custom_taxonomies fm = Ok fm' ->
  Dict.mem str_eqb k post = false \/ ~ In k (Dict.keys custom_taxonomies) ->
  sget k fm' = sget k fm.
Proof.
  induction custom_taxonomies as [|[taxonomy terms] rest IH]; intros fm fm' H Hk.
  - cbn in H. now injection H as <-.
  - cbn [add_taxonomies] in H.
    assert (Hrest : Dict.mem str_eqb k post = false \/ ~ In k (Dict.keys rest)).
    { destruct Hk as [Hk|Hk]; [now left|right]. intros Hin. apply Hk. now right. }
    destruct (Dict.mem str_eqb taxonomy post) eqn:Hmem.
    + bind_inv H. rewrite (IH _ _ H Hrest). unfold sget, sset.
      apply get_set_other. intros ->.
      destruct Hk as [Hk|Hk]; [congruence|]. apply Hk. now left.
    + now apply IH.
Qed.

(** X15. The title of an emitted file is the [rendered] entry of the
    item's title, and Untitled when the item has no title or its title
    has no such entry: the catch-all puts the item's raw title back, and
    [save_as_markdown] unwraps it again. *)
Theorem emitted_title_is_rendered_title :
  forall (handle : str -> str) (domain_url : str) (post : list (str * json))
         (authors : list (json * json)) (categories tags : term_table)
         (custom_taxonomies : taxonomy_table) (post_type : str) (use_markdown : bool)
         (f : markdown_file),
    NoDup (Dict.keys post) ->
    convert_post_to_md handle domain_url post authors categories tags
      custom_taxonomies post_type use_markdown = Ok f ->
    sget "title" (frontmatter f) = Some (rendered_title post).
Proof.
  intros handle domain_url post authors categories tags custom_taxonomies
         post_type use_markdown f Hnd H.
  unfold convert_post_to_md in H. repeat bind_inv H. injection H as <-.
  unfold save_as_markdown, rendered_title, get_rendered, sset, sget in *.
  cbn [frontmatter]. rewrite get_set_same. f_equal.
  rewrite update_empty by now apply NoDup_keys_filter.
  rewrite get_update by now apply NoDup_keys_filter.
  rewrite get_filter. change (is_excluded "title") with false. cbv iota.
  destruct (Dict.get str_eqb "title" post) as [t|] eqn:Ht.
  - destruct t; try discriminate. reflexivity.
  - injection Hv3 as <-.
    assert (Hmem : Dict.mem str_eqb "title" post = false)
      by (unfold Dict.mem; now rewrite Ht).
    pose proof (get_add_taxonomies _ _ "title" _ _ Hv8 (or_introl Hmem)) as G.
    unfold sget in G. rewrite G. unfold sset.
    destruct (truthy (get_or "acf" JNull post));
      rewrite !get_set_other by discriminate; reflexivity.
Qed.

Lemma emitted_title_is_rendered_title_example :
  sget "title" (frontmatter file_hi) = Some (rendered_title post_hi).
Proof.
  apply (emitted_title_is_rendered_title marked "https://blog.example.org" post_hi
           authors_hi categories_hi tags_hi [] "post" true file_hi).
  - repeat constructor; simpl; intuition discriminate.
  - reflexivity.
Defined.

(** X16. The excerpt of an emitted file is the rendered excerpt of the
    item passed through the converter and trimmed, in Markdown mode or
    not: the catch-all leaves the item's own excerpt out.  No custom
    taxonomy is called excerpt. *)
Theorem emitted_excerpt_is_converted :
  forall (handle : str -> str) (domain_url : str) (post : list (str * json))
         (authors : list (json * json)) (categories tags : term_table)
         (custom_taxonomies : taxonomy_table) (post_type : str) (use_markdown : bool)
         (f : markdown_file),
    NoDup (Dict.keys post) ->
    ~ In "excerpt" (Dict.keys custom_taxonomies) ->
    convert_post_to_md handle domain_url post authors categories tags
      custom_taxonomies post_type use_markdown = Ok f ->
    exists excerpt,
      get_rendered "excerpt" (JStr "") post = Ok (JStr excerpt)
      /\ sget "excerpt" (frontmatter f) = Some (JStr (strip (handle excerpt))).
Proof.
  intros handle domain_url post authors categories tags custom_taxonomies
         post_type use_markdown f Hnd Hcustom H.
  unfold convert_post_to_md in H. repeat bind_inv H. injection H as <-.
  exists v5. split.
  - rewrite Hv4. destruct v4; try discriminate. cbn in Hv5. now injection Hv5 as ->.
  - unfold save_as_markdown. cbn [frontmatter]. unfold sset, sget.
    rewrite get_set_other by discriminate.
    rewrite update_empty by now apply NoDup_keys_filter.
    rewrite get_update by now apply NoDup_keys_filter.
    rewrite get_filter. change (is_excluded "excerpt") with true. cbv iota.
    pose proof (get_add_taxonomies _ _ "excerpt" _ _ Hv8 (or_intror Hcustom)) as G.
    unfold sget in G. rewrite G. unfold sset.
    destruct (truthy (get_or "acf" JNull post));
      rewrite !get_set_other by discriminate; reflexivity.
Qed.

Lemma emitted_excerpt_is_converted_example :
  exists excerpt,
    get_rendered "excerpt" (JStr "") post_hi = Ok (JStr excerpt)
    /\ sget "excerpt" (frontmatter file_hi) = Some (JStr (strip (marked excerpt))).
Proof.
  apply (emitted_excerpt_is_converted marked "https://blog.example.org" post_hi
           authors_hi categories_hi tags_hi [] "post" true file_hi).
  - repeat constructor; simpl; intuition discriminate.
  - simpl. tauto.
  - reflexivity.
Defined.

(** Assignments keep two frontmatters the same but for the excerpt. *)
Lemma same_set k w d1 d2 :
  same_but_excerpt d1 d2 -> same_but_excerpt (sset k w d1) (sset k w d2).
Proof.
  intros [Hk Hg]. split.
  - unfold sset. now rewrite !keys_set, Hk.
  - intros k' Hne. unfold sget, sset. destruct (str_eqb k' k) eqn:E.
    + apply str_eqb_eq in E. subst k'. now rewrite !get_set_same.
    + rewrite !get_set_other by (now apply str_eqb_neq'). now apply Hg.
Qed.

Lemma same_update other : forall d1 d2,
  same_but_excerpt d1 d2 ->
  same_but_excerpt (Dict.update str_eqb d1 other) (Dict.update str_eqb d2 other).
Proof.
  unfold Dict.update.
  induction other as [|[k v] other IH]; intros d1 d2 H; cbn [fold_left fst snd].
  - exact H.
  - apply IH. now apply same_set.
Qed.

Lemma same_add_taxonomies post custom_taxonomies : forall d1 d2 d1' d2',
  add_taxonomies post custom_taxonomies d1 = Ok d1' ->
  add_taxonomies post custom_taxonomies d2 = Ok d2' ->
  same_but_excerpt d1 d2 -> same_but_excerpt d1' d2'.
Proof.
  induction custom_taxonomies as [|[taxonomy terms] rest IH];
    intros d1 d2 d1' d2' H1 H2 H; cbn [add_taxonomies] in H1, H2.
  - injection H1 as <-. injection H2 as <-. exact H.
  - destruct (Dict.mem str_eqb taxonomy post).
    + destruct (map_term_ids_to_names (get_or taxonomy (JArr []) post) terms)
        as [names| |]; cbn [bind] in H1, H2; try discriminate.
      apply (IH _ _ _ _ H1 H2). now apply same_set.
    + now apply (IH _ _ _ _ H1 H2).
Qed.

Lemma same_save_as_markdown d1 d2 content1 content2 :
  same_but_excerpt d1 d2 ->
  same_but_excerpt (frontmatter (save_as_markdown d1 content1))
                   (frontmatter (save_as_markdown d2 content2)).
Proof.
  intros H. unfold save_as_markdown. cbn [frontmatter].
  rewrite (proj2 H "title") by discriminate. now apply same_set.
Qed.

(** The frontmatter as it is first built. *)
Lemma same_first_keys title date author excerpt1 excerpt2 custom_url type :
  same_but_excerpt
    [("title", title); ("date", date); ("author", author); ("excerpt", excerpt1);
     ("custom_url", custom_url); ("type", type)]
    [("title", title); ("date", date); ("author", author); ("excerpt", excerpt2);
     ("custom_url", custom_url); ("type", type)].
Proof.
  split; [reflexivity|]. intros k Hk. unfold sget. cbn [Dict.get].
  destruct (str_eqb k "excerpt") eqn:E; [|reflexivity].
  apply str_eqb_eq in E. contradiction.
Qed.

(** X17. The converter, Markdown mode and the site URL reach the body
    and the excerpt only.  Two conversions of the same item with the same
    tables that both give a file, each with a converter, a mode and a site
    URL of its own, give frontmatters with the same keys in the same order
    and the same value under every key but excerpt. *)
Theorem frontmatter_outside_excerpt_ignores_mode :
  forall (handle1 handle2 : str -> str) (domain_url1 domain_url2 : str)
         (post : list (str * json)) (authors : list (json * json))
         (categories tags : term_table) (custom_taxonomies : taxonomy_table)
         (post_type : str) (use_markdown1 use_markdown2 : bool)
         (f1 f2 : markdown_file),
    convert_post_to_md handle1 domain_url1 post authors categories tags
      custom_taxonomies post_type use_markdown1 = Ok f1 ->
    convert_post_to_md handle2 domain_url2 post authors categories tags
      custom_taxonomies post_type use_markdown2 = Ok f2 ->
    Dict.keys (frontmatter f1) = Dict.keys (frontmatter f2)
    /\ forall k : str,
         k <> "excerpt" -> sget k (frontmatter f1) = sget k (frontmatter f2).
Proof.
  intros handle1 handle2 domain_url1 domain_url2 post authors categories tags
         custom_taxonomies post_type use_markdown1 use_markdown2 f1 f2.
  unfold convert_post_to_md.
  repeat match goal with
         | |- context [bind ?m _] => destruct m eqn:?; cbn [bind]
         end; intros H1 H2; try discriminate.
  injection H1 as <-. injection H2 as <-.
  apply same_save_as_markdown, same_update.
  match goal with
  | |- same_but_excerpt ?l1 ?l2 =>
      match goal with
      | A : _ = Ok l1, B : _ = Ok l2 |- _ =>
          apply (same_add_taxonomies _ _ _ _ _ _ A B)
      end
  end.
  destruct (truthy (get_or "acf" JNull post));
    repeat apply same_set; apply same_first_keys.
Qed.

Lemma frontmatter_outside_excerpt_ignores_mode_example :
  Dict.keys (frontmatter file_hi) = Dict.keys (frontmatter file_hi_raw)
  /\ forall k : str,
       k <> "excerpt"
       -> sget k (frontmatter file_hi) = sget k (frontmatter file_hi_raw).
Proof.
  apply (frontmatter_outside_excerpt_ignores_mode marked (fun s => s)
           "https://blog.example.org" "https://elsewhere.example" post_hi
           authors_hi categories_hi tags_hi [] "post" true false
           file_hi file_hi_raw); reflexivity.
Defined.

(** X18. Every field of an item except content, excerpt, guid, _links,
    _embedded, acf and title is emitted under its own key with the value
    that the item gives it, whatever [convert_post_to_md] has computed for
    that key before: an item that has an author, categories or tags field
    is emitted with these ids, not with the names resolved from them. *)
Theorem item_fields_replace_computed_values :
  forall (handle : str -> str) (domain_url : str) (post : list (str * json))
         (authors : list (json * json)) (categories tags : term_table)
         (custom_taxonomies : taxonomy_table) (post_type : str) (use_markdown : bool)
         (f : markdown_file) (k : str) (v : json),
    NoDup (Dict.keys post) ->
    convert_post_to_md handle domain_url post authors categories tags
      custom_taxonomies post_type use_markdown = Ok f ->
    sget k post = Some v ->
    ~ In k ["content"; "excerpt"; "guid"; "_links"; "_embedded"; "acf"; "title"] ->
    sget k (frontmatter f) = Some v.
Proof.
  intros handle domain_url post authors categories tags custom_taxonomies
         post_type use_markdown f k v Hnd H Hk Hout.
  apply (catch_all_overwrites handle domain_url post authors categories tags
           custom_taxonomies post_type use_markdown); try assumption.
  - unfold is_excluded, excluded_fields.
    destruct (existsb (str_eqb k) _) eqn:E; [|reflexivity].
    apply existsb_exists in E. destruct E as (x & Hx & E).
    apply str_eqb_eq in E. subst x. exfalso. apply Hout.
    cbn [In] in Hx |- *. tauto.
  - intros ->. apply Hout. cbn [In]. tauto.
Qed.

Lemma item_fields_replace_computed_values_example :
  sget "author" (frontmatter file_hi) = Some (JNum 7).
Proof.
  apply (item_fields_replace_computed_values marked "https://blog.example.org" post_hi
           authors_hi categories_hi tags_hi [] "post" true file_hi "author" (JNum 7)).
  - repeat constructor; simpl; intuition discriminate.
  - reflexivity.
  - reflexivity.
  - simpl. intuition discriminate.
Defined.

(** ** The batch *)

Lemma convert_each_all handle global_domain_url authors categories tags
    custom_taxonomies post_type use_markdown items files :
  Forall2 (fun item f =>
             convert_item handle global_domain_url item authors categories tags
               custom_taxonomies post_type use_markdown = Ok f) items files ->
  forall written,
    convert_each handle global_domain_url items authors categories tags
      custom_taxonomies post_type use_markdown written
    = (Ok tt, written ++ files).
Proof.
  induction 1 as [|item f items files Hf _ IH]; intros written.
  - cbn. now rewrite app_nil_r.
  - cbn [convert_each]. rewrite Hf, IH. now rewrite <- app_assoc.
Qed.

Lemma convert_each_raises handle global_domain_url authors categories tags
    custom_taxonomies post_type use_markdown good files bad rest e :
  Forall2 (fun item f =>
             convert_item handle global_domain_url item authors categories tags
               custom_taxonomies post_type use_markdown = Ok f) good files ->
  convert_item handle global_domain_url bad authors categories tags
    custom_taxonomies post_type use_markdown = Raise e ->
  forall written,
    convert_each handle global_domain_url (good ++ bad :: rest) authors categories tags
      custom_taxonomies post_type use_markdown written
    = (Raise e, written ++ files).
Proof.
  intros Hgood Hbad.
  induction Hgood as [|item f items files Hf _ IH]; intros written.
  - cbn [app convert_each]. rewrite Hbad. now rewrite app_nil_r.
  - cbn [app convert_each]. rewrite Hf, IH. now rewrite <- app_assoc.
Qed.

(** X19. When every fetched item converts, [save_posts_and_pages] writes
    one file per item: the files of the posts in the order of the posts,
    then the files of the pages in the order of the pages. *)
Theorem batch_writes_posts_then_pages :
  forall (http : str -> get_result) (handle : str -> str) (global_domain_url : str)
         (fuel : nat) (domain_url : str) (authors : list (json * json))
         (categories tags : term_table) (custom_taxonomies : taxonomy_table)
         (use_markdown : bool) (posts pages : list json)
         (post_files page_files : list markdown_file),
    fetches http fuel domain_url "posts" posts ->
    fetches http fuel domain_url "pages" pages ->
    Forall2 (fun item f =>
               convert_item handle global_domain_url item authors categories tags
                 custom_taxonomies "post" use_markdown = Ok f) posts post_files ->
    Forall2 (fun item f =>
               convert_item handle global_domain_url item authors categories tags
                 custom_taxonomies "page" use_markdown = Ok f) pages page_files ->
    save_posts_and_pages http handle global_domain_url fuel domain_url authors
      categories tags custom_taxonomies use_markdown
    = (Ok tt, post_files ++ page_files).
Proof.
  intros http handle global_domain_url fuel domain_url authors categories tags
         custom_taxonomies use_markdown posts pages post_files page_files
         Hposts Hpages Hcp Hcg.
  unfold save_posts_and_pages. unfold fetches in Hposts, Hpages.
  rewrite Hposts, Hpages.
  rewrite (convert_each_all _ _ _ _ _ _ _ _ _ _ Hcp).
  now rewrite (convert_each_all _ _ _ _ _ _ _ _ _ _ Hcg).
Qed.

Lemma batch_writes_posts_then_pages_example :
  save_posts_and_pages site_batch marked "https://blog.example.org" 1
    "https://blog.example.org" authors_hi categories_hi tags_hi [] true
  = (Ok tt, [file_hi] ++ [file_about]).
Proof.
  apply (batch_writes_posts_then_pages site_batch marked "https://blog.example.org" 1
           "https://blog.example.org" authors_hi categories_hi tags_hi [] true
           [JObj post_hi] [JObj page_about]).
  - reflexivity.
  - reflexivity.
  - repeat constructor.
  - repeat constructor.
Defined.

(** X20. Nothing is caught around the conversion of an item: the first
    post whose conversion raises ends [save_posts_and_pages] with that
    exception.  The posts before it have been written; the posts after it
    and all the pages are not converted. *)
Theorem batch_stops_at_first_failing_post :
  forall (http : str -> get_result) (handle : str -> str) (global_domain_url : str)
         (fuel : nat) (domain_url : str) (authors : list (json * json))
         (categories tags : term_table) (custom_taxonomies : taxonomy_table)
         (use_markdown : bool) (good : list json) (bad : json) (rest pages : list json)
         (files : list markdown_file) (e : exn),
    fetches http fuel domain_url "posts" (good ++ bad :: rest) ->
    fetches http fuel domain_url "pages" pages ->
    Forall2 (fun item f =>
               convert_item handle global_domain_url item authors categories tags
                 custom_taxonomies "post" use_markdown = Ok f) good files ->
    convert_item handle global_domain_url bad authors categories tags
      custom_taxonomies "post" use_markdown = Raise e ->
    save_posts_and_pages http handle global_domain_url fuel domain_url authors
      categories tags custom_taxonomies use_markdown
    = (Raise e, files).
Proof.
  intros http handle global_domain_url fuel domain_url authors categories tags
         custom_taxonomies use_markdown good bad rest pages files e
         Hposts Hpages Hgood Hbad.
  unfold save_posts_and_pages. unfold fetches in Hposts, Hpages.
  rewrite Hposts, Hpages.
  now rewrite (convert_each_raises _ _ _ _ _ _ _ _ _ _ _ _ _ Hgood Hbad).
Qed.

Lemma batch_stops_at_first_failing_post_example :
  save_posts_and_pages site_batch_bad marked "https://blog.example.org" 1
    "https://blog.example.org" authors_hi categories_hi tags_hi [] true
  = (Raise AttributeError, [file_hi]).
Proof.
  apply (batch_stops_at_first_failing_post site_batch_bad marked
           "https://blog.example.org" 1 "https://blog.example.org" authors_hi
           categories_hi tags_hi [] true [JObj post_hi] (JStr "oops") [JObj post_acf]
           [JObj page_about]).
  - reflexivity.
  - reflexivity.
  - repeat constructor.
  - reflexivity.
Defined.
